(** * external-dns: the plan/diff engine and the ownership filter

    A shallow embedding of [plan.NewPlan], [plan.Calculate] (package [plan])
    and [filterOwnedRecords] (package [registry]), with the properties of the
    change set they compute; then of the Azure provider (package [provider])
    and of the pod, service and node helpers of package [source].

    Conventions of the embedding:
    - a Go [map[K]V] held by a [Plan] is a [gmap K V]; [m[k] = append(m[k], v)]
      is [bucket_append];
    - a label map [map[string]string] is an [option (gmap string string)],
      [None] being the nil map (what a composite literal without a [Labels]
      field and a lookup of an absent [RecordKey] both give);
    - a slice is a [list] (nil and empty slices coincide);
    - [*endpoint.Endpoint] and [*endpoint.EndpointSet] values are never
      written through by this code, so they are modelled by their pointees;
    - [range] over a Go map visits every entry once in an unspecified order:
      [Calculate] takes the two visiting orders as arguments and its
      properties are stated for every order that is a permutation of the
      map's entries. *)

From stdpp Require Import gmap strings list fin_maps.

(** ** Package [endpoint] *)

(** The declarations of package [endpoint] that [plan] and [registry] refer
    to by name only. *)
Class EndpointConsts := {
  RecordTypeInternalALIAS : string;
  OwnerLabelKey : string;
}.

Module Endpoint.
Record t := mk {
  DNSName : string;
  Target : string;
  RecordType : string;
  AliasTarget : bool;
  Labels : option (gmap string string);
}.
End Endpoint.

Module EndpointSet.
Record t := mk {
  DNSName : string;
  RecordType : string;
  Targets : list string;
  Labels : option (gmap string string);
}.

#[global] Instance set_eq_dec : EqDecision t.
Proof. solve_decision. Defined.
End EndpointSet.

(** Modelled from the spec: [endpoint.TargetSliceEquals] is not part of the
    sources at hand; the comparison of two target lists is multiset equality
    (same elements with the same multiplicities, in any order). *)
Definition TargetSliceEquals (a b : list string) : bool :=
  bool_decide (a ≡ₚ b).

(** [m[key]] on a label-valued map: the nil map when [key] is absent. *)
Definition index_labels `{Countable K}
    (m : gmap K (option (gmap string string))) (key : K)
    : option (gmap string string) :=
  default None (m !! key).

(** [v, ok := labels[key]]. *)
Definition label_lookup (labels : option (gmap string string)) (key : string)
    : option string :=
  labels ≫= (.!! key).

(** ** Package [plan] *)

Module RecordKey.
Record t := mk {
  RecordType : string;
  DNSName : string;
}.

#[global] Instance key_eq_dec : EqDecision t.
Proof. solve_decision. Defined.

#[global] Instance key_countable : Countable t.
Proof.
  apply (inj_countable' (λ k, (RecordType k, DNSName k))
                        (λ p, mk p.1 p.2)).
  by intros [].
Defined.
End RecordKey.

Module Changes.
Record t := mk {
  Create : list EndpointSet.t;
  UpdateOld : list EndpointSet.t;
  UpdateNew : list EndpointSet.t;
  Delete : list EndpointSet.t;
}.

(** [&Changes{}] *)
Definition zero : t := mk [] [] [] [].
End Changes.

(** [Policy] is an interface with the single method
    [Apply(changes *Changes) *Changes]; the pointer may be nil. *)
Record Policy := { Apply : option Changes.t → option Changes.t }.

Module Plan.
Record t := mk {
  Aliases : gmap string (list Endpoint.t);
  Labels : gmap RecordKey.t (option (gmap string string));
  CurrentTargets : gmap RecordKey.t (list string);
  RecordTargets : gmap RecordKey.t (list string);
  Policies : list Policy;
  Changes : option Changes.t;
}.
End Plan.

(** [m[key] = append(m[key], v)] *)
Definition bucket_append `{Countable K} {V} (key : K) (v : V)
    (m : gmap K (list V)) : gmap K (list V) :=
  <[key := default [] (m !! key) ++ [v]]> m.

Section plan.
Context `{EndpointConsts}.

(** First loop of [NewPlan]: alias endpoints go to the alias index,
    the others to [records]. *)
Definition collect_alias (st : gmap string (list Endpoint.t) * list Endpoint.t)
    (ep : Endpoint.t) : gmap string (list Endpoint.t) * list Endpoint.t :=
  if Endpoint.AliasTarget ep
  then (bucket_append (Endpoint.DNSName ep) ep st.1, st.2)
  else (st.1, st.2 ++ [ep]).

Definition collect_aliases (desired : list Endpoint.t)
    : gmap string (list Endpoint.t) * list Endpoint.t :=
  fold_left collect_alias desired (∅, []).

(** Inner loop of the second loop: one alias of an [InternalALIAS] record. *)
Definition expand_alias (ep : Endpoint.t)
    (rt : gmap RecordKey.t (list string)) (alias : Endpoint.t)
    : gmap RecordKey.t (list string) :=
  bucket_append (RecordKey.mk (Endpoint.RecordType alias) (Endpoint.DNSName ep))
                (Endpoint.Target alias) rt.

(** Body of the second loop of [NewPlan]. *)
Definition aggregate_desired (aliases : gmap string (list Endpoint.t))
    (rt : gmap RecordKey.t (list string)) (ep : Endpoint.t)
    : gmap RecordKey.t (list string) :=
  if decide (Endpoint.RecordType ep = RecordTypeInternalALIAS)
  then fold_left (expand_alias ep)
                 (default [] (aliases !! Endpoint.Target ep)) rt
  else bucket_append (RecordKey.mk (Endpoint.RecordType ep) (Endpoint.DNSName ep))
                     (Endpoint.Target ep) rt.

(** Body of the third loop of [NewPlan]. *)
Definition aggregate_current
    (st : gmap RecordKey.t (option (gmap string string))
          * gmap RecordKey.t (list string))
    (ep : Endpoint.t)
    : gmap RecordKey.t (option (gmap string string))
      * gmap RecordKey.t (list string) :=
  let key := RecordKey.mk (Endpoint.RecordType ep) (Endpoint.DNSName ep) in
  (<[key := Endpoint.Labels ep]> st.1,
   bucket_append key (Endpoint.Target ep) st.2).

Definition NewPlan (current desired : list Endpoint.t) (policy : Policy)
    : Plan.t :=
  let ar := collect_aliases desired in
  let lc := fold_left aggregate_current current (∅, ∅) in
  {| Plan.Aliases := ar.1;
     Plan.Labels := lc.1;
     Plan.CurrentTargets := lc.2;
     Plan.RecordTargets := fold_left (aggregate_desired ar.1) ar.2 ∅;
     Plan.Policies := [policy];
     Plan.Changes := None |}.
End plan.

(** The [EndpointSet] literals of [Calculate]. *)
Definition set_of (key : RecordKey.t) (targets : list string)
    (labels : option (gmap string string)) : EndpointSet.t :=
  {| EndpointSet.DNSName := RecordKey.DNSName key;
     EndpointSet.RecordType := RecordKey.RecordType key;
     EndpointSet.Targets := targets;
     EndpointSet.Labels := labels |}.

(** Body of the loop over [plan.RecordTargets]. *)
Definition diff_desired (plan : Plan.t) (changes : Changes.t)
    (entry : RecordKey.t * list string) : Changes.t :=
  let key := entry.1 in
  let desired := entry.2 in
  match Plan.CurrentTargets plan !! key with
  | None =>
      {| Changes.Create := Changes.Create changes ++ [set_of key desired None];
         Changes.UpdateOld := Changes.UpdateOld changes;
         Changes.UpdateNew := Changes.UpdateNew changes;
         Changes.Delete := Changes.Delete changes |}
  | Some current =>
      if TargetSliceEquals current desired then changes
      else
        {| Changes.Create := Changes.Create changes;
           Changes.UpdateOld := Changes.UpdateOld changes
             ++ [set_of key current (index_labels (Plan.Labels plan) key)];
           Changes.UpdateNew := Changes.UpdateNew changes
             ++ [set_of key desired (index_labels (Plan.Labels plan) key)];
           Changes.Delete := Changes.Delete changes |}
  end.

(** Body of the loop over [plan.CurrentTargets]. *)
Definition diff_current (plan : Plan.t) (changes : Changes.t)
    (entry : RecordKey.t * list string) : Changes.t :=
  let key := entry.1 in
  let current := entry.2 in
  match Plan.RecordTargets plan !! key with
  | None =>
      {| Changes.Create := Changes.Create changes;
         Changes.UpdateOld := Changes.UpdateOld changes;
         Changes.UpdateNew := Changes.UpdateNew changes;
         Changes.Delete := Changes.Delete changes
           ++ [set_of key current (index_labels (Plan.Labels plan) key)] |}
  | Some _ => changes
  end.

(** The two map loops of [Calculate], visiting [plan.RecordTargets] in the
    order [ro] and [plan.CurrentTargets] in the order [co]. *)
Definition diff (ro co : list (RecordKey.t * list string)) (plan : Plan.t)
    : Changes.t :=
  fold_left (diff_current plan) co
    (fold_left (diff_desired plan) ro Changes.zero).

(** The loop over [plan.Policies]. *)
Fixpoint apply_policies (policies : list Policy) (changes : option Changes.t)
    : option Changes.t :=
  match policies with
  | [] => changes
  | pol :: rest => apply_policies rest (Apply pol changes)
  end.

Definition Calculate (ro co : list (RecordKey.t * list string))
    (plan : Plan.t) : Plan.t :=
  {| Plan.Aliases := Plan.Aliases plan;
     Plan.Labels := ∅;
     Plan.CurrentTargets := Plan.CurrentTargets plan;
     Plan.RecordTargets := Plan.RecordTargets plan;
     Plan.Policies := [];
     Plan.Changes := apply_policies (Plan.Policies plan) (Some (diff ro co plan)) |}.

(** [ro] is an order in which [range m] may visit the entries of [m]. *)
Definition range_order `{Countable K} {V} (m : gmap K V) (ro : list (K * V))
    : Prop :=
  ro ≡ₚ map_to_list m.

(** [Calculate] with the visiting orders that [map_to_list] gives. *)
Definition Calculate_canon (plan : Plan.t) : Plan.t :=
  Calculate (map_to_list (Plan.RecordTargets plan))
            (map_to_list (Plan.CurrentTargets plan)) plan.

(** *** [Calculate] as a method on [*Plan]

    Plans live in a store; the receiver is an address, and the composite
    literal [&Plan{...}] that [Calculate] returns is a fresh address. *)
Abbreviation store := (gmap positive Plan.t).

Definition Calculate_method (ro co : list (RecordKey.t * list string))
    (σ : store) (recv : positive) : option (positive * store) :=
  match σ !! recv with
  | None => None
  | Some plan =>
      let l := fresh (dom σ) in
      Some (l, <[l := Calculate ro co plan]> σ)
  end.

(** ** Package [registry] *)

Section registry.
Context `{EndpointConsts}.

(** The loop body keeps [endpointSet] unless
    [!ok || endpointOwner != ownerID]. *)
Definition owned_by (ownerID : string) (endpointSet : EndpointSet.t) : bool :=
  match label_lookup (EndpointSet.Labels endpointSet) OwnerLabelKey with
  | None => false
  | Some endpointOwner => bool_decide (endpointOwner = ownerID)
  end.

Fixpoint filterOwnedRecords_from (filtered : list EndpointSet.t)
    (ownerID : string) (endpointSets : list EndpointSet.t)
    : list EndpointSet.t :=
  match endpointSets with
  | [] => filtered
  | endpointSet :: rest =>
      if owned_by ownerID endpointSet
      then filterOwnedRecords_from (filtered ++ [endpointSet]) ownerID rest
      else filterOwnedRecords_from filtered ownerID rest
  end.

Definition filterOwnedRecords (ownerID : string)
    (endpointSets : list EndpointSet.t) : list EndpointSet.t :=
  filterOwnedRecords_from [] ownerID endpointSets.
End registry.

(** ** Auxiliary notions used to state the properties *)

Definition key_of_endpoint (ep : Endpoint.t) : RecordKey.t :=
  RecordKey.mk (Endpoint.RecordType ep) (Endpoint.DNSName ep).

Definition key_of_set (s : EndpointSet.t) : RecordKey.t :=
  RecordKey.mk (EndpointSet.RecordType s) (EndpointSet.DNSName s).

(** A bucket after the values [vs] were appended to it one by one: untouched
    (possibly still absent) when [vs] is empty. *)
Definition extend {V} (bucket : option (list V)) (vs : list V)
    : option (list V) :=
  match vs with
  | [] => bucket
  | _ => Some (default [] bucket ++ vs)
  end.

(** What one regular desired endpoint appends to the bucket [key]. *)
Definition contribution `{EndpointConsts}
    (aliases : gmap string (list Endpoint.t)) (key : RecordKey.t)
    (ep : Endpoint.t) : list string :=
  if decide (Endpoint.RecordType ep = RecordTypeInternalALIAS)
  then Endpoint.Target <$>
         filter (λ alias, RecordKey.mk (Endpoint.RecordType alias)
                                       (Endpoint.DNSName ep) = key)
                (default [] (aliases !! Endpoint.Target ep))
  else if decide (key_of_endpoint ep = key) then [Endpoint.Target ep] else [].

(** The entries that the two loops of [Calculate] emit for one map entry. *)
Definition create_of (plan : Plan.t) (entry : RecordKey.t * list string)
    : option EndpointSet.t :=
  match Plan.CurrentTargets plan !! entry.1 with
  | None => Some (set_of entry.1 entry.2 None)
  | Some _ => None
  end.

Definition update_of (plan : Plan.t) (entry : RecordKey.t * list string)
    : option (EndpointSet.t * EndpointSet.t) :=
  match Plan.CurrentTargets plan !! entry.1 with
  | None => None
  | Some current =>
      if TargetSliceEquals current entry.2 then None
      else Some (set_of entry.1 current (index_labels (Plan.Labels plan) entry.1),
                 set_of entry.1 entry.2 (index_labels (Plan.Labels plan) entry.1))
  end.

Definition delete_of (plan : Plan.t) (entry : RecordKey.t * list string)
    : option EndpointSet.t :=
  match Plan.RecordTargets plan !! entry.1 with
  | None => Some (set_of entry.1 entry.2 (index_labels (Plan.Labels plan) entry.1))
  | Some _ => None
  end.

(** ** Concrete data used in the examples *)

Definition demo_consts : EndpointConsts :=
  {| RecordTypeInternalALIAS := "InternalALIAS"; OwnerLabelKey := "owner" |}.

(** A pass-through policy and one that empties the [Delete] list. *)
Definition sync_policy : Policy := {| Apply := λ c, c |}.

Definition no_delete_policy : Policy :=
  {| Apply := λ c,
       (λ ch, Changes.mk (Changes.Create ch) (Changes.UpdateOld ch)
                         (Changes.UpdateNew ch) []) <$> c |}.

(** The alias scenario: an alias-target endpoint and an internal alias that
    refers to it. *)
Definition example_alias_target : Endpoint.t :=
  Endpoint.mk "lb" "A" "CNAME" true None.

Definition example_internal_alias `{EndpointConsts} : Endpoint.t :=
  Endpoint.mk "app.example.com" "lb" RecordTypeInternalALIAS false None.

(** Scenarios over the concrete constants. *)
Definition demo_plan (current desired : list Endpoint.t) : Plan.t :=
  @NewPlan demo_consts current desired sync_policy.

Definition key_x : RecordKey.t := RecordKey.mk "A" "x.com".
Definition key_y : RecordKey.t := RecordKey.mk "A" "y.com".

Definition owner_is (o : string) : option (gmap string string) :=
  Some {[ "owner" := o ]}.

(** ** Go's [strings] package, as far as the provider and the sources use it

    A Go string is a sequence of bytes: [len] is [String.length], [s[:n]] is
    [str_take n s] and [s[n:]] is [str_drop n s] (for [n] within bounds). *)

Fixpoint str_take (n : nat) (s : string) : string :=
  match n, s with
  | S n', String c s' => String c (str_take n' s')
  | _, _ => ""
  end.

Fixpoint str_drop (n : nat) (s : string) : string :=
  match n, s with
  | S n', String _ s' => str_drop n' s'
  | _, _ => s
  end.

(** [len(s) >= len(suffix) && s[len(s)-len(suffix):] == suffix] *)
Definition HasSuffix (s suffix : string) : bool :=
  bool_decide (String.length suffix ≤ String.length s)
  && bool_decide (str_drop (String.length s - String.length suffix) s = suffix).

(** [len(s) >= len(prefix) && s[:len(prefix)] == prefix] *)
Definition HasPrefix (s prefix : string) : bool :=
  bool_decide (String.length prefix ≤ String.length s)
  && bool_decide (str_take (String.length prefix) s = prefix).

Definition TrimSuffix (s suffix : string) : string :=
  if HasSuffix s suffix
  then str_take (String.length s - String.length suffix) s
  else s.

Definition TrimPrefix (s prefix : string) : string :=
  if HasPrefix s prefix then str_drop (String.length prefix) s else s.

(** ** Package [dns] of the Azure SDK: the fields that the provider touches

    A pointer field is an [option], [None] being nil. *)

Module ARecord.
Record t := mk { Ipv4Address : option string }.
End ARecord.

Module CnameRecord.
Record t := mk { Cname : option string }.
End CnameRecord.

Module TxtRecord.
Record t := mk { Value : option (list string) }.
End TxtRecord.

Module RecordSetProperties.
Record t := mk {
  TTL : option Z;
  ARecords : option (list ARecord.t);
  CnameRecord : option CnameRecord.t;
  TxtRecords : option (list TxtRecord.t);
}.
End RecordSetProperties.

Module RecordSet.
Record t := mk {
  Name : option string;
  Type_ : option string;
  RecordSetProperties : option RecordSetProperties.t;
}.

(** [dns.RecordSet{}] *)
Definition zero : t := mk None None None.
End RecordSet.

Module Zone.
Record t := mk { Name : option string }.
End Zone.

(** The record types [dns.A], [dns.CNAME] and [dns.TXT]. *)
Definition dns_A : string := "A".
Definition dns_CNAME : string := "CNAME".
Definition dns_TXT : string := "TXT".

(** ** Package [provider]: the Azure provider *)

Definition azureRecordTTL : Z := 300.

(** [findZone] returns [&zones[idx]]: the result is the index, [None] being
    the nil pointer. The outer [option] is [None] when the loop dereferences
    a nil [Name]. *)
Fixpoint findZone_from (zones rest : list Zone.t) (idx : nat) (name : string)
    (result : option nat) : option (option nat) :=
  match rest with
  | [] => Some result
  | zone :: rest' =>
      zoneName ← Zone.Name zone;
      if HasSuffix name zoneName then
        match result with
        | None => findZone_from zones rest' (S idx) name (Some idx)
        | Some r =>
            resultName ← (zones !! r ≫= Zone.Name);
            if bool_decide (String.length resultName < String.length zoneName)
            then findZone_from zones rest' (S idx) name (Some idx)
            else findZone_from zones rest' (S idx) name result
        end
      else findZone_from zones rest' (S idx) name result
  end.

Definition findZone (zones : list Zone.t) (name : string)
    : option (option nat) :=
  findZone_from zones zones 0 name None.

(** The closure [mapChange] of [mapChanges]; the [ignored] map of the source
    only decides whether a line is logged. *)
Definition mapChange (zones : list Zone.t)
    (changeMap : gmap nat (list EndpointSet.t)) (change : EndpointSet.t)
    : option (gmap nat (list EndpointSet.t)) :=
  zone ← findZone zones (EndpointSet.DNSName change);
  match zone with
  | None => Some changeMap
  | Some z => Some (bucket_append z change changeMap)
  end.

Fixpoint mapChange_all (zones : list Zone.t)
    (changeMap : gmap nat (list EndpointSet.t)) (changes : list EndpointSet.t)
    : option (gmap nat (list EndpointSet.t)) :=
  match changes with
  | [] => Some changeMap
  | change :: rest =>
      changeMap' ← mapChange zones changeMap change;
      mapChange_all zones changeMap' rest
  end.

(** [mapChanges] returns [(deleted, updated)], both keyed by the zone. *)
Definition mapChanges (zones : list Zone.t) (changes : Changes.t)
    : option (gmap nat (list EndpointSet.t) * gmap nat (list EndpointSet.t)) :=
  deleted ← mapChange_all zones ∅ (Changes.Delete changes);
  deleted ← mapChange_all zones deleted (Changes.UpdateOld changes);
  updated ← mapChange_all zones ∅ (Changes.Create changes);
  updated ← mapChange_all zones updated (Changes.UpdateNew changes);
  Some (deleted, updated).

(** The slice of [name] that cuts the zone name off its end is out of range
    when the zone name is longer than [name], and the zone's [Name] is
    dereferenced: the result is [None] in both cases. *)
Definition recordSetNameForZone (zone : Zone.t) (endpointSet : EndpointSet.t)
    : option string :=
  zoneName ← Zone.Name zone;
  let name := EndpointSet.DNSName endpointSet in
  if bool_decide (String.length zoneName ≤ String.length name) then
    let name := str_take (String.length name - String.length zoneName) name in
    let name := TrimSuffix name "." in
    if bool_decide (name = "") then Some "@" else Some name
  else None.

Inductive newRecordSetError :=
  | UnsupportedCNAMERecordCount (lenTargets : nat)
  | UnsupportedRecordType (recordType : string).

Definition newRecordSet (endpointSet : EndpointSet.t)
    : RecordSet.t + newRecordSetError :=
  let recordType := EndpointSet.RecordType endpointSet in
  if bool_decide (recordType = dns_A) then
    inl (RecordSet.mk None None
           (Some (RecordSetProperties.mk
              (Some azureRecordTTL)
              (Some ((λ target, ARecord.mk (Some target))
                       <$> EndpointSet.Targets endpointSet))
              None None)))
  else if bool_decide (recordType = dns_CNAME) then
    match EndpointSet.Targets endpointSet with
    | [target] =>
        inl (RecordSet.mk None None
               (Some (RecordSetProperties.mk
                  (Some azureRecordTTL) None
                  (Some (CnameRecord.mk (Some target))) None)))
    | targets => inr (UnsupportedCNAMERecordCount (length targets))
    end
  else if bool_decide (recordType = dns_TXT) then
    inl (RecordSet.mk None None
           (Some (RecordSetProperties.mk
              (Some azureRecordTTL) None None
              (Some [TxtRecord.mk (Some (EndpointSet.Targets endpointSet))]))))
  else inr (UnsupportedRecordType recordType).

Definition formatAzureDNSName (recordName zoneName : string) : string :=
  if bool_decide (recordName = "@") then zoneName
  else recordName +:+ "." +:+ zoneName.

Definition extractAzureTarget (recordSet : RecordSet.t) : string :=
  match RecordSet.RecordSetProperties recordSet with
  | None => ""
  | Some properties =>
      match (RecordSetProperties.ARecords properties
             ≫= (λ aRecords : list ARecord.t, aRecords !! 0%nat))
            ≫= ARecord.Ipv4Address with
      | Some address => address
      | None =>
          match RecordSetProperties.CnameRecord properties
                ≫= CnameRecord.Cname with
          | Some cname => cname
          | None =>
              match ((RecordSetProperties.TxtRecords properties
                       ≫= (λ txtRecords : list TxtRecord.t, txtRecords !! 0%nat))
                      ≫= TxtRecord.Value)
                    ≫= (λ values : list string, values !! 0%nat) with
              | Some value => value
              | None => ""
              end
          end
      end
  end.

(** What [findZone] has found after the zones before index [idx]: nothing
    when none of them is a suffix of [name], else the first of the longest
    such zones. *)
Definition found_among (zones : list Zone.t) (name : string) (idx : nat)
    (result : option nat) : Prop :=
  match result with
  | None =>
      ∀ j zoneName, j < idx → zones !! j ≫= Zone.Name = Some zoneName →
                    HasSuffix name zoneName = false
  | Some i =>
      i < idx
      ∧ ∃ resultName,
          zones !! i ≫= Zone.Name = Some resultName
          ∧ HasSuffix name resultName = true
          ∧ ∀ j zoneName,
              j < idx → zones !! j ≫= Zone.Name = Some zoneName →
              HasSuffix name zoneName = true →
              String.length zoneName ≤ String.length resultName
              ∧ (String.length zoneName = String.length resultName → i ≤ j)
  end.

(** *** The provider and its clients

    The provider talks to Azure through the interfaces [ZonesClient] and
    [RecordsClient]. A listing loop depends on its client only through the
    replies it receives, so it is modelled as a function of the list of the
    replies to its successive calls, [None] when the list ends before the
    loop does. The calls that change records are modelled by the list of the
    calls issued (their results only decide what is logged), [None] when the
    run stops on a nil dereference or on a slice out of range. *)

Definition go_error := string.

Module ZoneListResult.
Record t := mk { Value : option (list Zone.t) }.
End ZoneListResult.

Module AzureProvider.
Record t := mk {
  domainFilter : string;
  dryRun : bool;
  resourceGroup : string;
}.
End AzureProvider.

(** The test of the inner loop of [zones]. *)
Definition zone_in_domain (p : AzureProvider.t) (zone : Zone.t) : bool :=
  match Zone.Name zone with
  | None => false
  | Some zoneName => HasSuffix zoneName (AzureProvider.domainFilter p)
  end.

(** The loop of [zones]; [replies] are the replies to the calls of
    [ListByResourceGroupNextResults]. *)
Fixpoint zones_loop (p : AzureProvider.t) (listResult : ZoneListResult.t)
    (replies : list (ZoneListResult.t + go_error)) (zones : list Zone.t)
    : option (list Zone.t + go_error) :=
  match ZoneListResult.Value listResult with
  | Some (zone :: page) =>
      let zones := zones ++ List.filter (zone_in_domain p) (zone :: page) in
      match replies with
      | [] => None
      | inr err :: _ => Some (inr err)
      | inl listResult' :: replies' => zones_loop p listResult' replies' zones
      end
  | _ => Some (inl zones)
  end.

(** [zones]; the first reply is that of [ListByResourceGroup]. *)
Definition zones (p : AzureProvider.t)
    (replies : list (ZoneListResult.t + go_error))
    : option (list Zone.t + go_error) :=
  match replies with
  | [] => None
  | inr err :: _ => Some (inr err)
  | inl listResult :: replies' => zones_loop p listResult replies' []
  end.

Inductive RecordsCall :=
  | Delete (resourceGroupName zoneName relativeRecordSetName recordType
            ifMatch : string)
  | CreateOrUpdate (resourceGroupName zoneName relativeRecordSetName
                    recordType : string) (parameters : RecordSet.t)
                   (ifMatch ifNoneMatch : string).

(** The inner loop of [deleteRecords] for one zone: the calls issued, [None]
    on a nil dereference or a slice out of range. *)
Fixpoint deleteRecords_zone (p : AzureProvider.t) (zone : Zone.t)
    (endpointSets : list EndpointSet.t) : option (list RecordsCall) :=
  match endpointSets with
  | [] => Some []
  | endpointSet :: rest =>
      name ← recordSetNameForZone zone endpointSet;
      zoneName ← Zone.Name zone;
      calls ← deleteRecords_zone p zone rest;
      if AzureProvider.dryRun p then Some calls
      else Some (Delete (AzureProvider.resourceGroup p) zoneName name
                        (EndpointSet.RecordType endpointSet) "" :: calls)
  end.

(** [deleteRecords], the buckets of [deleted] being visited in the order
    [order]; a key is the index of its zone in [zones]. *)
Fixpoint deleteRecords (p : AzureProvider.t) (zones : list Zone.t)
    (order : list (nat * list EndpointSet.t)) : option (list RecordsCall) :=
  match order with
  | [] => Some []
  | (z, endpointSets) :: rest =>
      zone ← zones !! z;
      calls ← deleteRecords_zone p zone endpointSets;
      calls' ← deleteRecords p zones rest;
      Some (calls ++ calls')
  end.

Fixpoint updateRecords_zone (p : AzureProvider.t) (zone : Zone.t)
    (endpointSets : list EndpointSet.t) : option (list RecordsCall) :=
  match endpointSets with
  | [] => Some []
  | endpointSet :: rest =>
      name ← recordSetNameForZone zone endpointSet;
      zoneName ← Zone.Name zone;
      calls ← updateRecords_zone p zone rest;
      if AzureProvider.dryRun p then Some calls
      else
        match newRecordSet endpointSet with
        | inl recordSet =>
            Some (CreateOrUpdate (AzureProvider.resourceGroup p) zoneName name
                                 (EndpointSet.RecordType endpointSet)
                                 recordSet "" "" :: calls)
        | inr _ => Some calls
        end
  end.

Fixpoint updateRecords (p : AzureProvider.t) (zones : list Zone.t)
    (order : list (nat * list EndpointSet.t)) : option (list RecordsCall) :=
  match order with
  | [] => Some []
  | (z, endpointSets) :: rest =>
      zone ← zones !! z;
      calls ← updateRecords_zone p zone endpointSets;
      calls' ← updateRecords p zones rest;
      Some (calls ++ calls')
  end.

(** [ApplyChanges]: the calls issued and the error returned. [visit] gives
    the order in which a change map is visited. *)
Definition ApplyChanges (p : AzureProvider.t)
    (replies : list (ZoneListResult.t + go_error))
    (visit : gmap nat (list EndpointSet.t) → list (nat * list EndpointSet.t))
    (changes : Changes.t) : option (list RecordsCall * option go_error) :=
  zones_result ← zones p replies;
  match zones_result with
  | inr err => Some ([], Some err)
  | inl zones =>
      maps ← mapChanges zones changes;
      deletes ← deleteRecords p zones (visit maps.1);
      updates ← updateRecords p zones (visit maps.2);
      Some (deletes ++ updates, None)
  end.

(** The reply that carries the page [page]. *)
Definition page_reply (page : list Zone.t) : ZoneListResult.t + go_error :=
  inl (ZoneListResult.mk (Some page)).

(** The zone that [mapChanges] assigns to a change: the one [findZone]
    returns for its name, if any. *)
Definition zone_of (zones : list Zone.t) (change : EndpointSet.t)
    : option nat :=
  default None (findZone zones (EndpointSet.DNSName change)).

(** The call that [deleteRecords] issues for a change, and the one that
    [updateRecords] issues, outside of a dry run. *)
Definition delete_call_of (p : AzureProvider.t) (zones : list Zone.t)
    (change : EndpointSet.t) : option RecordsCall :=
  z ← zone_of zones change;
  zone ← zones !! z;
  zoneName ← Zone.Name zone;
  name ← recordSetNameForZone zone change;
  Some (Delete (AzureProvider.resourceGroup p) zoneName name
               (EndpointSet.RecordType change) "").

Definition update_call_of (p : AzureProvider.t) (zones : list Zone.t)
    (change : EndpointSet.t) : option RecordsCall :=
  z ← zone_of zones change;
  zone ← zones !! z;
  zoneName ← Zone.Name zone;
  name ← recordSetNameForZone zone change;
  match newRecordSet change with
  | inl recordSet =>
      Some (CreateOrUpdate (AzureProvider.resourceGroup p) zoneName name
                           (EndpointSet.RecordType change) recordSet "" "")
  | inr _ => None
  end.

(** The values of a map, bucket after bucket in the order [order]. *)
Definition bucket_values {A} (order : list (nat * list A)) : list A :=
  order ≫= snd.

(** Every bucket of [order] belongs to a zone of [zones] and holds changes
    that [zone_of] assigns to that zone. *)
Definition well_bucketed (zones : list Zone.t)
    (order : list (nat * list EndpointSet.t)) : Prop :=
  Forall (λ e, is_Some (zones !! e.1)
               ∧ Forall (λ c, zone_of zones c = Some e.1) e.2) order.

(** ** Package [source]

    The Kubernetes objects are records of the fields that the sources read;
    a nested field [a.b.c] is named [a_b_c]. The constructors and the record
    types of package [endpoint] are taken as parameters. *)

Class EndpointCtors := {
  NewEndpoint : string → string → string → Endpoint.t;
  NewAliasTargetEndpoint : string → string → string → Endpoint.t;
  RecordTypeA : string;
  RecordTypeCNAME : string;
}.

Module LoadBalancerIngress.
Record t := mk { IP : string; Hostname : string }.
End LoadBalancerIngress.

Module Service.
Record t := mk {
  Annotations : gmap string string;
  Labels : gmap string string;
  Spec_Type : string;
  Status_LoadBalancer_Ingress : list LoadBalancerIngress.t;
}.
End Service.

Module Pod.
Record t := mk {
  Annotations : gmap string string;
  Spec_HostNetwork : bool;
  Spec_NodeName : string;
  Status_PodIP : string;
}.
End Pod.

Module Node.
Record t := mk {
  Name : string;
  Labels : gmap string string;
}.
End Node.

(** Constants of the Kubernetes API. *)
Definition ServiceTypeLoadBalancer : string := "LoadBalancer".
Definition ServiceTypeNodePort : string := "NodePort".

Definition mateAnnotationKey : string := "zalando.org/dnsname".
Definition moleculeAnnotationKey : string := "domainName".
Definition dnsControllerExternalAnnotationKey : string :=
  "dns.alpha.kubernetes.io/external-test".
Definition dnsControllerInternalAnnotationKey : string :=
  "dns.alpha.kubernetes.io/internal-test".
Definition compatibilityMate : string := "mate".
Definition compatibilityMolecule : string := "molecule".
Definition compatibilityDnsController : string := "dnscontroller".

Definition controllerAnnotationKey : string :=
  "external-dns.alpha.kubernetes.io/controller".
Definition hostnameAnnotationKey : string :=
  "external-dns.alpha.kubernetes.io/hostname".
Definition controllerAnnotationValue : string := "dns-controller".
Definition RoleTypeExternal : string := "external".
Definition RoleTypeInternal : string := "internal".

Definition aliasForNodesInRole (role roleType : string) : string :=
  "node/role=" +:+ role +:+ "/" +:+ roleType.

Definition aliasForNodeName (nodeName roleType : string) : string :=
  "node/" +:+ nodeName +:+ "/" +:+ roleType.

(** [getNodeRole]; [order] is the order in which [node.Labels] is visited. *)
Definition getNodeRole_step (role : string) (entry : string * string)
    : string :=
  let k := entry.1 in
  if HasPrefix k "node-role.kubernetes.io/"
  then TrimPrefix k "node-role.kubernetes.io/"
  else role.

Definition getNodeRole (order : list (string * string)) (node : Node.t)
    : string :=
  let role := fold_left getNodeRole_step order "" in
  if bool_decide (role = "")
  then default "" (Node.Labels node !! "kubernetes.io/role")
  else role.

Section source.
Context `{EndpointConsts} `{EndpointCtors}.

(** The body of the loops over [Status.LoadBalancer.Ingress] that append an
    A record for an IP and a CNAME record for a hostname. *)
Definition lb_step (hostname : string) (endpoints : list Endpoint.t)
    (lb : LoadBalancerIngress.t) : list Endpoint.t :=
  let endpoints :=
    if bool_decide (LoadBalancerIngress.IP lb ≠ "")
    then endpoints ++ [NewEndpoint hostname (LoadBalancerIngress.IP lb)
                                   RecordTypeA]
    else endpoints in
  if bool_decide (LoadBalancerIngress.Hostname lb ≠ "")
  then endpoints ++ [NewEndpoint hostname (LoadBalancerIngress.Hostname lb)
                                 RecordTypeCNAME]
  else endpoints.

Definition legacyEndpointsFromMateService (svc : Service.t)
    : list Endpoint.t :=
  match Service.Annotations svc !! mateAnnotationKey with
  | None => []
  | Some hostname =>
      fold_left (lb_step hostname) (Service.Status_LoadBalancer_Ingress svc) []
  end.

Definition legacyEndpointsFromMoleculeService (svc : Service.t)
    : list Endpoint.t :=
  if bool_decide (default "" (Service.Labels svc !! "dns") ≠ "route53") then []
  else
    match Service.Annotations svc !! moleculeAnnotationKey with
    | None => []
    | Some hostname =>
        fold_left (lb_step hostname)
                  (Service.Status_LoadBalancer_Ingress svc) []
    end.

(** The body of the loop of [legacyEndpointsFromDnsControllerService] for a
    load balancer; an absent annotation is [None]. *)
Definition dnsController_lb_step (internal external : option string)
    (endpoints : list Endpoint.t) (lb : LoadBalancerIngress.t)
    : list Endpoint.t :=
  let add (annotation : option string) (target recordType : string)
          (endpoints : list Endpoint.t) :=
    match annotation with
    | Some name => endpoints ++ [NewEndpoint name target recordType]
    | None => endpoints
    end in
  let endpoints :=
    if bool_decide (LoadBalancerIngress.IP lb ≠ "")
    then add external (LoadBalancerIngress.IP lb) RecordTypeA
           (add internal (LoadBalancerIngress.IP lb) RecordTypeA endpoints)
    else endpoints in
  if bool_decide (LoadBalancerIngress.Hostname lb ≠ "")
  then add external (LoadBalancerIngress.Hostname lb) RecordTypeCNAME
         (add internal (LoadBalancerIngress.Hostname lb) RecordTypeCNAME
              endpoints)
  else endpoints.

Definition legacyEndpointsFromDnsControllerService (svc : Service.t)
    : list Endpoint.t :=
  let internal := Service.Annotations svc !! dnsControllerInternalAnnotationKey in
  let external := Service.Annotations svc !! dnsControllerExternalAnnotationKey in
  match internal, external with
  | None, None => []
  | _, _ =>
      if bool_decide (Service.Spec_Type svc = ServiceTypeLoadBalancer) then
        fold_left (dnsController_lb_step internal external)
                  (Service.Status_LoadBalancer_Ingress svc) []
      else if bool_decide (Service.Spec_Type svc = ServiceTypeNodePort) then
        match internal, external with
        | Some _, Some _ => []
        | Some name, None =>
            [NewEndpoint name (aliasForNodesInRole "node" RoleTypeInternal)
                         RecordTypeInternalALIAS]
        | None, Some name =>
            [NewEndpoint name (aliasForNodesInRole "node" RoleTypeExternal)
                         RecordTypeInternalALIAS]
        | None, None => []
        end
      else []
  end.

Definition legacyEndpointsFromService (svc : Service.t) (compatibility : string)
    : list Endpoint.t :=
  if bool_decide (compatibility = compatibilityMate)
  then legacyEndpointsFromMateService svc
  else if bool_decide (compatibility = compatibilityMolecule)
  then legacyEndpointsFromMoleculeService svc
  else if bool_decide (compatibility = compatibilityDnsController)
  then legacyEndpointsFromDnsControllerService svc
  else [].

Definition legacyEndpointsFromDnsControllerPod (pod : Pod.t)
    : list Endpoint.t :=
  let internal := Pod.Annotations pod !! dnsControllerInternalAnnotationKey in
  let external := Pod.Annotations pod !! dnsControllerExternalAnnotationKey in
  let endpoints :=
    match internal with
    | Some name =>
        if Pod.Spec_HostNetwork pod
        then if bool_decide (Pod.Status_PodIP pod ≠ "")
             then [NewEndpoint name (Pod.Status_PodIP pod) RecordTypeA]
             else []
        else []
    | None => []
    end in
  match external with
  | Some name =>
      if Pod.Spec_HostNetwork pod
      then if bool_decide (Pod.Spec_NodeName pod ≠ "")
           then endpoints
                ++ [NewEndpoint name
                      (aliasForNodeName (Pod.Spec_NodeName pod) RoleTypeExternal)
                      RecordTypeInternalALIAS]
           else endpoints
      else endpoints
  | None => endpoints
  end.

Definition legacyEndpointsFromPod (pod : Pod.t) (compatibility : string)
    : list Endpoint.t :=
  if bool_decide (compatibility = compatibilityDnsController)
  then legacyEndpointsFromDnsControllerPod pod
  else [].

Definition endpointsFromPod (pod : Pod.t) : list Endpoint.t :=
  match Pod.Annotations pod !! hostnameAnnotationKey with
  | None => []
  | Some hostname =>
      if Pod.Spec_HostNetwork pod
      then if bool_decide (Pod.Spec_NodeName pod ≠ "")
           then [NewEndpoint hostname
                   (aliasForNodeName (Pod.Spec_NodeName pod) RoleTypeExternal)
                   RecordTypeInternalALIAS]
           else []
      else []
  end.

(** [podSource.endpointsFromTemplate]; [fqdntemplate] is the execution of
    the parsed template on a pod. *)
Definition pod_endpointsFromTemplate (fqdntemplate : Pod.t → string + go_error)
    (pod : Pod.t) : list Endpoint.t + go_error :=
  match fqdntemplate pod with
  | inr err => inr err
  | inl hostname =>
      inl (if Pod.Spec_HostNetwork pod
           then if bool_decide (Pod.Spec_NodeName pod ≠ "")
                then [NewEndpoint hostname
                        (aliasForNodeName (Pod.Spec_NodeName pod)
                                          RoleTypeExternal)
                        RecordTypeInternalALIAS]
                else []
           else [])
  end.

(** The test that makes [podSource.Endpoints] skip a pod: a controller
    annotation with another value than ours. *)
Definition pod_of_other_controller (pod : Pod.t) : bool :=
  match Pod.Annotations pod !! controllerAnnotationKey with
  | Some controller => bool_decide (controller ≠ controllerAnnotationValue)
  | None => false
  end.

(** The loop of [podSource.Endpoints] over the pods listed by the client,
    and [podSource.Endpoints] on the reply of the client; a nil
    [fqdntemplate] is [None]. *)
Fixpoint podSource_loop (compatibility : string)
    (fqdntemplate : option (Pod.t → string + go_error))
    (pods : list Pod.t) (endpoints : list Endpoint.t)
    : list Endpoint.t + go_error :=
  match pods with
  | [] => inl endpoints
  | pod :: rest =>
      if pod_of_other_controller pod
      then podSource_loop compatibility fqdntemplate rest endpoints
      else
        let podEndpoints := endpointsFromPod pod in
        let podEndpoints :=
          if bool_decide (length podEndpoints = 0 ∧ compatibility ≠ "")
          then legacyEndpointsFromPod pod compatibility
          else podEndpoints in
        let templated :=
          match fqdntemplate with
          | Some tmpl =>
              if bool_decide (length podEndpoints = 0)
              then pod_endpointsFromTemplate tmpl pod
              else inl podEndpoints
          | None => inl podEndpoints
          end in
        match templated with
        | inr err => inr err
        | inl podEndpoints =>
            if bool_decide (length podEndpoints = 0)
            then podSource_loop compatibility fqdntemplate rest endpoints
            else podSource_loop compatibility fqdntemplate rest
                   (endpoints ++ podEndpoints)
        end
  end.

Definition podSource_Endpoints (compatibility : string)
    (fqdntemplate : option (Pod.t → string + go_error))
    (listed : list Pod.t + go_error) : list Endpoint.t + go_error :=
  match listed with
  | inr err => inr err
  | inl pods => podSource_loop compatibility fqdntemplate pods []
  end.
End source.

(** The number of records that one load balancer entry yields per name. *)
Definition lb_targets (lb : LoadBalancerIngress.t) : nat :=
  (if bool_decide (LoadBalancerIngress.IP lb ≠ "") then 1 else 0)
  + (if bool_decide (LoadBalancerIngress.Hostname lb ≠ "") then 1 else 0).

Definition role_label_prefix : string := "node-role.kubernetes.io/".

(** One for an annotation that is present. *)
Definition present (annotation : option string) : nat :=
  match annotation with Some _ => 1 | None => 0 end.

(** *** Concrete data for the further examples *)

Definition demo_ctors : EndpointCtors :=
  {| NewEndpoint := λ dnsName target recordType,
       Endpoint.mk dnsName target recordType false None;
     NewAliasTargetEndpoint := λ dnsName target recordType,
       Endpoint.mk dnsName target recordType true None;
     RecordTypeA := "A";
     RecordTypeCNAME := "CNAME" |}.

Definition demo_zones : list Zone.t :=
  [Zone.mk (Some "example.com"); Zone.mk (Some "sub.example.com");
   Zone.mk (Some "other.com")].

Definition demo_provider : AzureProvider.t :=
  AzureProvider.mk "example.com" false "k8s".

Definition demo_replies : list (ZoneListResult.t + go_error) :=
  [page_reply [Zone.mk (Some "example.com"); Zone.mk None];
   page_reply [Zone.mk (Some "other.com"); Zone.mk (Some "sub.example.com")];
   inl (ZoneListResult.mk None)].

Definition demo_changes : Changes.t :=
  {| Changes.Create :=
       [EndpointSet.mk "new.example.com" "A" ["1.2.3.4"] None;
        EndpointSet.mk "new.nope.com" "A" ["4.4.4.4"] None];
     Changes.UpdateOld :=
       [EndpointSet.mk "www.sub.example.com" "CNAME" ["old.example.com"] None];
     Changes.UpdateNew :=
       [EndpointSet.mk "www.sub.example.com" "CNAME" ["new.example.com"] None];
     Changes.Delete :=
       [EndpointSet.mk "example.com" "TXT" ["tag"] None] |}.

(** * Properties *)

(** ** The ownership filter *)

Section registry_facts.
Context `{EndpointConsts}.

Lemma filterOwnedRecords_from_filter filtered ownerID endpointSets :
  filterOwnedRecords_from filtered ownerID endpointSets
  = filtered ++ List.filter (owned_by ownerID) endpointSets.
Proof.
  revert filtered.
  induction endpointSets as [|s rest IH]; intros filtered; simpl.
  - by rewrite app_nil_r.
  - destruct (owned_by ownerID s); rewrite IH; [|done].
    by rewrite <- app_assoc.
Qed.

Lemma filterOwnedRecords_filter ownerID endpointSets :
  filterOwnedRecords ownerID endpointSets
  = List.filter (owned_by ownerID) endpointSets.
Proof. apply filterOwnedRecords_from_filter. Qed.

Lemma owned_by_true ownerID s :
  owned_by ownerID s = true
  ↔ label_lookup (EndpointSet.Labels s) OwnerLabelKey = Some ownerID.
Proof.
  unfold owned_by.
  destruct (label_lookup _ _) as [o|]; [|done].
  rewrite bool_decide_eq_true. split; congruence.
Qed.

Lemma elem_of_filterOwnedRecords ownerID endpointSets s :
  s ∈ filterOwnedRecords ownerID endpointSets
  ↔ s ∈ endpointSets
    ∧ label_lookup (EndpointSet.Labels s) OwnerLabelKey = Some ownerID.
Proof.
  rewrite filterOwnedRecords_filter, !list_elem_of_In, filter_In.
  by rewrite owned_by_true.
Qed.
Lemma filterOwnedRecords_label_filter ownerID endpointSets :
  filterOwnedRecords ownerID endpointSets
  = filter (λ s, label_lookup (EndpointSet.Labels s) OwnerLabelKey
                 = Some ownerID) endpointSets.
Proof.
  rewrite filterOwnedRecords_filter.
  induction endpointSets as [|s rest IH]; [done|].
  rewrite filter_cons. simpl. rewrite IH.
  destruct (owned_by ownerID s) eqn:Hs; case_decide as Hl; try done.
  - by apply owned_by_true in Hs.
  - apply owned_by_true in Hl. congruence.
Qed.

(** C4, as the code has it: whatever [ownerID] is (the empty string
    included), a set without the owner label is dropped, so a list in which
    no set carries the owner label is filtered to the empty list; sets whose
    [Labels] are nil or empty, as those of [Create] are, are such sets. *)
Theorem C4_unlabelled_sets_are_dropped
    (ownerID : string) (endpointSets : list EndpointSet.t) :
  Forall (λ s, label_lookup (EndpointSet.Labels s) OwnerLabelKey = None)
         endpointSets →
  filterOwnedRecords ownerID endpointSets = []
  ∧ (∀ s, EndpointSet.Labels s = None ∨ EndpointSet.Labels s = Some ∅ →
          label_lookup (EndpointSet.Labels s) OwnerLabelKey = None).
Proof.
  intros Hall. split.
  - rewrite filterOwnedRecords_label_filter.
    induction Hall as [|s rest Hs _ IH]; [done|].
    rewrite filter_cons. case_decide; [congruence|done].
  - intros s [->| ->]; [done|]. simpl. apply lookup_empty.
Qed.

(** C5: on a list in which every set carries the owner label,
    [filterOwnedRecords] returns exactly the sets of the input, in input
    order, whose owner label equals [ownerID]: a matching set is kept, a
    mismatching one is dropped, and the result is a plain list (there is no
    error result). *)
Theorem C5_filter_keeps_exactly_the_owned
    (ownerID : string) (endpointSets : list EndpointSet.t) :
  Forall (λ s, is_Some (label_lookup (EndpointSet.Labels s) OwnerLabelKey))
         endpointSets →
  filterOwnedRecords ownerID endpointSets
  = filter (λ s, label_lookup (EndpointSet.Labels s) OwnerLabelKey
                 = Some ownerID) endpointSets
  ∧ (∀ s, s ∈ endpointSets →
          label_lookup (EndpointSet.Labels s) OwnerLabelKey = Some ownerID →
          s ∈ filterOwnedRecords ownerID endpointSets)
  ∧ (∀ s o, s ∈ endpointSets →
            label_lookup (EndpointSet.Labels s) OwnerLabelKey = Some o →
            o ≠ ownerID →
            s ∉ filterOwnedRecords ownerID endpointSets)
  ∧ filterOwnedRecords ownerID endpointSets `sublist_of` endpointSets.
Proof.
  intros _. split_and!.
  - apply filterOwnedRecords_label_filter.
  - intros s Hin Hl. by apply elem_of_filterOwnedRecords.
  - intros s o Hin Hl Hne [_ Hl']%elem_of_filterOwnedRecords. congruence.
  - rewrite filterOwnedRecords_label_filter. apply sublist_filter.
Qed.
End registry_facts.

(** C4 as worded fails: with the empty [ownerID], two sets without an owner
    label (nil labels, and empty labels) are both dropped, not returned. *)
Lemma C4_counterexample :
  let sets := [EndpointSet.mk "x.com" "A" ["1.2.3.4"] None;
               EndpointSet.mk "y.com" "CNAME" ["x.com"] (Some ∅)] in
  Forall (λ s, label_lookup (EndpointSet.Labels s)
                            (@OwnerLabelKey demo_consts) = None) sets
  ∧ @filterOwnedRecords demo_consts "" sets = []
  ∧ @filterOwnedRecords demo_consts "" sets ≠ sets.
Proof.
  split_and!; [by repeat constructor|by vm_compute|by vm_compute].
Qed.

Lemma C4_witness :
  let sets := [EndpointSet.mk "x.com" "A" ["1.2.3.4"] None;
               EndpointSet.mk "y.com" "CNAME" ["x.com"] (Some ∅)] in
  Forall (λ s, label_lookup (EndpointSet.Labels s)
                            (@OwnerLabelKey demo_consts) = None) sets
  ∧ @filterOwnedRecords demo_consts "me" sets = [].
Proof.
  intros sets.
  assert (Hall : Forall (λ s, label_lookup (EndpointSet.Labels s)
                                (@OwnerLabelKey demo_consts) = None) sets)
    by (by repeat constructor).
  split; [exact Hall|].
  exact (proj1 (@C4_unlabelled_sets_are_dropped demo_consts "me" sets Hall)).
Defined.

Lemma C5_witness :
  let sets := [EndpointSet.mk "a.com" "A" ["1.1.1.1"] (owner_is "me");
               EndpointSet.mk "b.com" "A" ["2.2.2.2"] (owner_is "other");
               EndpointSet.mk "c.com" "TXT" ["v"] (owner_is "me")] in
  Forall (λ s, is_Some (label_lookup (EndpointSet.Labels s)
                                     (@OwnerLabelKey demo_consts))) sets
  ∧ @filterOwnedRecords demo_consts "me" sets
    = [EndpointSet.mk "a.com" "A" ["1.1.1.1"] (owner_is "me");
       EndpointSet.mk "c.com" "TXT" ["v"] (owner_is "me")].
Proof.
  intros sets.
  assert (Hall : Forall (λ s, is_Some (label_lookup (EndpointSet.Labels s)
                                         (@OwnerLabelKey demo_consts))) sets)
    by (repeat constructor; by eexists).
  split; [exact Hall|].
  rewrite (proj1 (@C5_filter_keeps_exactly_the_owned demo_consts "me" sets Hall)).
  by vm_compute.
Defined.

(** ** Buckets *)

Lemma extend_app {V} (o : option (list V)) (a b : list V) :
  extend (extend o a) b = extend o (a ++ b).
Proof.
  destruct a as [|x a]; [done|].
  destruct b as [|y b]; simpl.
  - by rewrite app_nil_r.
  - by rewrite <- app_assoc.
Qed.

Lemma extend_None_nil {V} (vs : list V) : extend None vs = None ↔ vs = [].
Proof. by destruct vs. Qed.

Lemma extend_is_nonempty {V} (o : option (list V)) (vs l : list V) :
  vs ≠ [] → extend o vs = Some l → l ≠ [].
Proof.
  destruct vs as [|v vs]; [done|]. intros _ [= <-].
  by destruct (default [] o).
Qed.

Lemma lookup_bucket_append `{Countable K} {V} (k k' : K) (v : V)
    (m : gmap K (list V)) :
  bucket_append k v m !! k' = extend (m !! k') (if decide (k = k') then [v] else []).
Proof.
  unfold bucket_append. case_decide as Hk.
  - subst. by rewrite lookup_insert_eq.
  - by rewrite lookup_insert_ne.
Qed.

(** ** [NewPlan] *)

Section plan_facts.
Context `{EndpointConsts}.

Lemma collect_alias_records desired st :
  (fold_left collect_alias desired st).2
  = st.2 ++ filter (λ ep, Endpoint.AliasTarget ep = false) desired.
Proof.
  revert st. induction desired as [|ep rest IH]; intros st; simpl.
  - by rewrite app_nil_r.
  - rewrite IH, filter_cons. unfold collect_alias.
    destruct (Endpoint.AliasTarget ep); simpl; [done|].
    by rewrite <- app_assoc.
Qed.

Lemma collect_alias_index desired st name :
  (fold_left collect_alias desired st).1 !! name
  = extend (st.1 !! name)
      (filter (λ ep, Endpoint.AliasTarget ep = true
                     ∧ Endpoint.DNSName ep = name) desired).
Proof.
  revert st. induction desired as [|ep rest IH]; intros st; [done|].
  simpl. rewrite IH, filter_cons. unfold collect_alias.
  destruct (Endpoint.AliasTarget ep) eqn:Halias; simpl.
  - rewrite lookup_bucket_append.
    destruct (decide (Endpoint.DNSName ep = name)) as [Hn|Hn].
    + rewrite decide_True by done. by rewrite extend_app.
    + case_decide as Hd; [destruct Hd; congruence|done].
  - done.
Qed.

Lemma lookup_expand_aliases ep aliases rt key :
  fold_left (expand_alias ep) aliases rt !! key
  = extend (rt !! key)
      (Endpoint.Target <$>
         filter (λ alias, RecordKey.mk (Endpoint.RecordType alias)
                                       (Endpoint.DNSName ep) = key) aliases).
Proof.
  revert rt. induction aliases as [|alias rest IH]; intros rt; [done|].
  simpl. rewrite IH, filter_cons. unfold expand_alias.
  rewrite lookup_bucket_append.
  case_decide; [|done]. by rewrite extend_app.
Qed.

Lemma lookup_aggregate_desired aliases rt ep key :
  aggregate_desired aliases rt ep !! key
  = extend (rt !! key) (contribution aliases key ep).
Proof.
  unfold aggregate_desired, contribution. case_decide.
  - apply lookup_expand_aliases.
  - apply lookup_bucket_append.
Qed.

Lemma lookup_aggregate_desired_all aliases records rt key :
  fold_left (aggregate_desired aliases) records rt !! key
  = extend (rt !! key) (records ≫= contribution aliases key).
Proof.
  revert rt. induction records as [|ep rest IH]; intros rt; [done|].
  simpl. by rewrite IH, lookup_aggregate_desired, extend_app.
Qed.

Lemma lookup_aggregate_current_targets current st key :
  (fold_left aggregate_current current st).2 !! key
  = extend (st.2 !! key)
      (Endpoint.Target <$>
         filter (λ ep, key_of_endpoint ep = key) current).
Proof.
  revert st. induction current as [|ep rest IH]; intros st; [done|].
  cbn [fold_left]. rewrite IH, filter_cons. unfold aggregate_current. simpl.
  rewrite lookup_bucket_append.
  change (RecordKey.mk _ _) with (key_of_endpoint ep).
  destruct (decide (key_of_endpoint ep = key)); [|done].
  by rewrite extend_app.
Qed.

Lemma lookup_aggregate_current_labels current st key :
  (fold_left aggregate_current current st).1 !! key
  = match last (filter (λ ep, key_of_endpoint ep = key) current) with
    | Some ep => Some (Endpoint.Labels ep)
    | None => st.1 !! key
    end.
Proof.
  revert st. induction current as [|ep rest IH]; intros st; [done|].
  cbn [fold_left]. rewrite IH, filter_cons. unfold aggregate_current. simpl.
  change (RecordKey.mk _ _) with (key_of_endpoint ep).
  destruct (decide (key_of_endpoint ep = key)) as [Hk|Hk].
  - rewrite Hk, lookup_insert_eq, last_cons. by destruct (last _).
  - by rewrite lookup_insert_ne.
Qed.

Lemma NewPlan_RecordTargets current desired policy key :
  Plan.RecordTargets (NewPlan current desired policy) !! key
  = extend None
      (filter (λ ep, Endpoint.AliasTarget ep = false) desired
         ≫= contribution (Plan.Aliases (NewPlan current desired policy)) key).
Proof.
  simpl. rewrite lookup_aggregate_desired_all, lookup_empty.
  unfold collect_aliases. by rewrite collect_alias_records.
Qed.

Lemma NewPlan_Aliases current desired policy name :
  Plan.Aliases (NewPlan current desired policy) !! name
  = extend None
      (filter (λ ep, Endpoint.AliasTarget ep = true
                     ∧ Endpoint.DNSName ep = name) desired).
Proof. simpl. unfold collect_aliases. by rewrite collect_alias_index. Qed.
End plan_facts.

Lemma extend_None_elem {V} (vs : list V) (x : V) :
  x ∈ vs → extend None vs = Some vs.
Proof. destruct vs; [by intros ?%not_elem_of_nil|done]. Qed.

Lemma range_order_singleton `{Countable K} {V} (k : K) (v : V) ro :
  range_order ({[k := v]} : gmap K V) ro → ro = [(k, v)].
Proof.
  unfold range_order. rewrite map_to_list_singleton.
  apply Permutation_singleton_r.
Qed.

Lemma range_order_empty `{Countable K} {V} (ro : list (K * V)) :
  range_order (∅ : gmap K V) ro → ro = [].
Proof.
  unfold range_order. rewrite map_to_list_empty. apply Permutation_nil_r.
Qed.

Lemma bucket_append_empty `{Countable K} {V} (k : K) (v : V) :
  bucket_append k v (∅ : gmap K (list V)) = {[k := [v]]}.
Proof. unfold bucket_append. by rewrite lookup_empty, insert_empty. Qed.

Section plan_claims.
Context `{EndpointConsts}.

Lemma example_plan policy :
  NewPlan [] [example_alias_target; example_internal_alias] policy
  = {| Plan.Aliases := {[ "lb" := [example_alias_target] ]};
       Plan.Labels := ∅;
       Plan.CurrentTargets := ∅;
       Plan.RecordTargets :=
         {[ RecordKey.mk "CNAME" "app.example.com" := ["A"] ]};
       Plan.Policies := [policy];
       Plan.Changes := None |}.
Proof.
  unfold NewPlan, collect_aliases. simpl.
  unfold aggregate_desired. simpl.
  rewrite decide_True by done.
  rewrite !bucket_append_empty, lookup_singleton_eq. simpl.
  unfold expand_alias. simpl. by rewrite bucket_append_empty.
Qed.
(** C6: an [InternalALIAS] record [ep] whose [Target] is in the alias index
    appends, for each alias registered there, the alias's [Target] to the
    bucket [{alias.RecordType, ep.DNSName}], so that bucket of the plan
    holds it; and the plan built from the alias target
    [{lb, A, CNAME}] and the internal alias [{app.example.com, lb}] with no
    current record yields, whatever the visiting orders, the single
    [Create] entry [{CNAME, app.example.com}] with targets [["A"]]. *)
Theorem C6_internal_alias_expands_to_alias_targets
    (current desired : list Endpoint.t) (policy : Policy)
    (ep alias : Endpoint.t) :
  let plan := NewPlan current desired policy in
  ep ∈ desired →
  Endpoint.AliasTarget ep = false →
  Endpoint.RecordType ep = RecordTypeInternalALIAS →
  alias ∈ default [] (Plan.Aliases plan !! Endpoint.Target ep) →
  (∀ rt key,
      aggregate_desired (Plan.Aliases plan) rt ep !! key
      = extend (rt !! key)
          (Endpoint.Target <$>
             filter (λ a, RecordKey.mk (Endpoint.RecordType a)
                                       (Endpoint.DNSName ep) = key)
                    (default [] (Plan.Aliases plan !! Endpoint.Target ep))))
  ∧ (∃ targets,
        Plan.RecordTargets plan
          !! RecordKey.mk (Endpoint.RecordType alias) (Endpoint.DNSName ep)
        = Some targets
        ∧ Endpoint.Target alias ∈ targets)
  ∧ (∀ policy' ro co,
        let example :=
          NewPlan [] [example_alias_target; example_internal_alias] policy' in
        let created :=
          Changes.mk [EndpointSet.mk "app.example.com" "CNAME" ["A"] None]
                     [] [] [] in
        range_order (Plan.RecordTargets example) ro →
        range_order (Plan.CurrentTargets example) co →
        diff ro co example = created
        ∧ Plan.Changes (Calculate ro co example)
          = Apply policy' (Some created)).
Proof.
  intros plan Hin Hreg Hty Halias. split_and!.
  - intros rt key. rewrite lookup_aggregate_desired.
    unfold contribution. by rewrite decide_True.
  - set (key := RecordKey.mk _ _).
    assert (Hc : Endpoint.Target alias
                 ∈ filter (λ e, Endpoint.AliasTarget e = false) desired
                   ≫= contribution (Plan.Aliases plan) key).
    { apply list_elem_of_bind. exists ep. split.
      - unfold contribution. rewrite decide_True by done.
        apply list_elem_of_fmap_2, list_elem_of_filter. by split.
      - by apply list_elem_of_filter. }
    eexists. split; [|exact Hc].
    unfold plan. rewrite NewPlan_RecordTargets.
    by apply extend_None_elem with (x := Endpoint.Target alias).
  - intros policy' ro co example created. unfold example.
    rewrite example_plan. simpl.
    intros ->%range_order_singleton ->%range_order_empty.
    unfold Calculate, diff. simpl. unfold diff_desired. simpl.
    by rewrite lookup_empty.
Qed.

(** C7: an [InternalALIAS] record [ep] whose [Target] is not in the alias
    index contributes to no bucket: its loop step leaves [RecordTargets] as
    it is, the plan is the one built from the desired list without [ep],
    and so is every [Calculate] of it; [NewPlan] has no error result. *)
Theorem C7_unresolved_internal_alias_is_dropped
    (current d1 d2 : list Endpoint.t) (ep : Endpoint.t) (policy : Policy) :
  let plan := NewPlan current (d1 ++ ep :: d2) policy in
  Endpoint.AliasTarget ep = false →
  Endpoint.RecordType ep = RecordTypeInternalALIAS →
  Plan.Aliases plan !! Endpoint.Target ep = None →
  (∀ rt, aggregate_desired (Plan.Aliases plan) rt ep = rt)
  ∧ (∀ key, contribution (Plan.Aliases plan) key ep = [])
  ∧ plan = NewPlan current (d1 ++ d2) policy
  ∧ (∀ ro co, Calculate ro co plan
              = Calculate ro co (NewPlan current (d1 ++ d2) policy)).
Proof.
  intros plan Hreg Hty Hnone.
  assert (Hstep : ∀ rt, aggregate_desired (Plan.Aliases plan) rt ep = rt).
  { intros rt. unfold aggregate_desired.
    rewrite decide_True by done. by rewrite Hnone. }
  assert (Hplan : plan = NewPlan current (d1 ++ d2) policy).
  { assert (Hal : Plan.Aliases plan
                  = Plan.Aliases (NewPlan current (d1 ++ d2) policy)).
    { apply map_eq. intros name. unfold plan.
      rewrite !NewPlan_Aliases, !filter_app, filter_cons.
      case_decide as Hd; [destruct Hd; congruence|done]. }
    unfold plan, NewPlan in *. simpl in *. f_equal; [done|].
    rewrite <- Hal.
    set (aliases := (collect_aliases (d1 ++ ep :: d2)).1) in *.
    unfold collect_aliases.
    rewrite !collect_alias_records, !filter_app, filter_cons. simpl.
    rewrite decide_True by done.
    rewrite !fold_left_app. simpl. by rewrite Hstep. }
  split_and!; [done| |done|by rewrite <- Hplan].
  intros key. unfold contribution.
  rewrite decide_True by done. by rewrite Hnone.
Qed.

(** C8: when current endpoints share a [RecordKey], the plan's [Labels]
    entry for that key holds the labels of the last of them in list order,
    and the key's current-target bucket holds the targets of all of them,
    in list order. *)
Theorem C8_last_current_endpoint_labels_win
    (current desired : list Endpoint.t) (policy : Policy)
    (key : RecordKey.t) :
  let plan := NewPlan current desired policy in
  let same := filter (λ ep, key_of_endpoint ep = key) current in
  same ≠ [] →
  (∃ ep, last same = Some ep
         ∧ Plan.Labels plan !! key = Some (Endpoint.Labels ep)
         ∧ index_labels (Plan.Labels plan) key = Endpoint.Labels ep)
  ∧ Plan.CurrentTargets plan !! key = Some (Endpoint.Target <$> same).
Proof.
  intros plan same Hsame. split.
  - destruct (last same) as [ep|] eqn:Hlast.
    + exists ep. unfold index_labels, plan. simpl.
      rewrite lookup_aggregate_current_labels. fold same.
      by rewrite Hlast.
    + by apply last_None in Hlast.
  - unfold plan. simpl. rewrite lookup_aggregate_current_targets.
    fold same. simpl. rewrite lookup_empty.
    by destruct same.
Qed.
End plan_claims.

(** ** [Calculate] *)

Lemma TargetSliceEquals_true (a b : list string) :
  TargetSliceEquals a b = true ↔ a ≡ₚ b.
Proof. unfold TargetSliceEquals. apply bool_decide_eq_true. Qed.

Lemma key_of_set_of key targets labels :
  key_of_set (set_of key targets labels) = key.
Proof. by destruct key. Qed.

Section diff_facts.
Variable plan : Plan.t.

Lemma fold_diff_desired ro changes :
  fold_left (diff_desired plan) ro changes
  = {| Changes.Create := Changes.Create changes ++ omap (create_of plan) ro;
       Changes.UpdateOld :=
         Changes.UpdateOld changes ++ (omap (update_of plan) ro).*1;
       Changes.UpdateNew :=
         Changes.UpdateNew changes ++ (omap (update_of plan) ro).*2;
       Changes.Delete := Changes.Delete changes |}.
Proof.
  revert changes. induction ro as [|entry ro IH]; intros changes.
  - destruct changes. simpl. by rewrite !app_nil_r.
  - cbn [fold_left]. rewrite IH.
    unfold diff_desired, create_of, update_of. simpl.
    destruct (Plan.CurrentTargets plan !! entry.1) as [current|]; simpl.
    + destruct (TargetSliceEquals current entry.2); simpl; [done|].
      by rewrite <- !app_assoc.
    + by rewrite <- app_assoc.
Qed.

Lemma fold_diff_current co changes :
  fold_left (diff_current plan) co changes
  = {| Changes.Create := Changes.Create changes;
       Changes.UpdateOld := Changes.UpdateOld changes;
       Changes.UpdateNew := Changes.UpdateNew changes;
       Changes.Delete := Changes.Delete changes ++ omap (delete_of plan) co |}.
Proof.
  revert changes. induction co as [|entry co IH]; intros changes.
  - destruct changes. simpl. by rewrite app_nil_r.
  - cbn [fold_left]. rewrite IH.
    unfold diff_current, delete_of. simpl.
    destruct (Plan.RecordTargets plan !! entry.1); simpl; [done|].
    by rewrite <- app_assoc.
Qed.

Lemma diff_lists ro co :
  diff ro co plan
  = {| Changes.Create := omap (create_of plan) ro;
       Changes.UpdateOld := (omap (update_of plan) ro).*1;
       Changes.UpdateNew := (omap (update_of plan) ro).*2;
       Changes.Delete := omap (delete_of plan) co |}.
Proof. unfold diff. by rewrite fold_diff_desired, fold_diff_current. Qed.

Lemma create_of_Some entry s :
  create_of plan entry = Some s →
  Plan.CurrentTargets plan !! entry.1 = None
  ∧ s = set_of entry.1 entry.2 None.
Proof.
  unfold create_of. destruct (_ !! _); [done|]. by intros [= <-].
Qed.

Lemma update_of_Some entry old new :
  update_of plan entry = Some (old, new) →
  ∃ current,
    Plan.CurrentTargets plan !! entry.1 = Some current
    ∧ TargetSliceEquals current entry.2 = false
    ∧ old = set_of entry.1 current (index_labels (Plan.Labels plan) entry.1)
    ∧ new = set_of entry.1 entry.2 (index_labels (Plan.Labels plan) entry.1).
Proof.
  unfold update_of. destruct (_ !! _) as [current|]; [|done].
  destruct (TargetSliceEquals _ _) eqn:Heq; [done|].
  intros [= <- <-]. by exists current.
Qed.

Lemma delete_of_Some entry s :
  delete_of plan entry = Some s →
  Plan.RecordTargets plan !! entry.1 = None
  ∧ s = set_of entry.1 entry.2 (index_labels (Plan.Labels plan) entry.1).
Proof.
  unfold delete_of. destruct (_ !! _); [done|]. by intros [= <-].
Qed.

(** Keys of the emitted entries, by list. *)
Lemma create_key (ro : list (RecordKey.t * list string)) key :
  key ∈ key_of_set <$> omap (create_of plan) ro →
  key ∈ ro.*1 ∧ Plan.CurrentTargets plan !! key = None.
Proof.
  intros (s & -> & (entry & Hin & Hs)%list_elem_of_omap)%list_elem_of_fmap.
  apply create_of_Some in Hs as [Hnone ->].
  rewrite key_of_set_of. split; [|done]. by apply list_elem_of_fmap_2.
Qed.

Lemma update_entry (ro : list (RecordKey.t * list string)) old new :
  (old, new) ∈ omap (update_of plan) ro →
  ∃ entry current,
    entry ∈ ro
    ∧ Plan.CurrentTargets plan !! entry.1 = Some current
    ∧ TargetSliceEquals current entry.2 = false
    ∧ old = set_of entry.1 current (index_labels (Plan.Labels plan) entry.1)
    ∧ new = set_of entry.1 entry.2 (index_labels (Plan.Labels plan) entry.1).
Proof.
  intros (entry & Hin & Hs)%list_elem_of_omap.
  apply update_of_Some in Hs as (current & ?). by exists entry, current.
Qed.

Lemma delete_key (co : list (RecordKey.t * list string)) key :
  key ∈ key_of_set <$> omap (delete_of plan) co →
  key ∈ co.*1 ∧ Plan.RecordTargets plan !! key = None.
Proof.
  intros (s & -> & (entry & Hin & Hs)%list_elem_of_omap)%list_elem_of_fmap.
  apply delete_of_Some in Hs as [Hnone ->].
  rewrite key_of_set_of. split; [|done]. by apply list_elem_of_fmap_2.
Qed.
End diff_facts.

(** ** Visiting orders *)

Section range_facts.
Context `{Countable K} {V : Type}.
Implicit Types (m : gmap K V) (ro : list (K * V)).

Lemma range_order_canon m : range_order m (map_to_list m).
Proof. by unfold range_order. Qed.

Lemma range_order_elem m ro k v :
  range_order m ro → (k, v) ∈ ro ↔ m !! k = Some v.
Proof. intros Hro. rewrite Hro. apply elem_of_map_to_list. Qed.

Lemma range_order_key m ro k :
  range_order m ro → k ∈ ro.*1 → is_Some (m !! k).
Proof.
  intros Hro ([k' v] & -> & Hin)%list_elem_of_fmap.
  exists v. by apply (range_order_elem m ro).
Qed.

Lemma range_order_NoDup m ro : range_order m ro → NoDup ro.*1.
Proof. intros Hro. rewrite Hro. apply NoDup_fst_map_to_list. Qed.
End range_facts.

Lemma omap_all_Some {A B} (f : A → option B) (g : A → B) (l : list A) :
  (∀ x, x ∈ l → f x = Some (g x)) → omap f l = g <$> l.
Proof.
  induction l as [|x l IH]; intros Hall; [done|].
  simpl. rewrite (Hall x) by left. simpl. f_equal.
  apply IH. intros y Hy. apply Hall. by right.
Qed.

Lemma omap_all_None {A B} (f : A → option B) (l : list A) :
  (∀ x, x ∈ l → f x = None) → omap f l = [].
Proof.
  induction l as [|x l IH]; intros Hall; [done|].
  simpl. rewrite (Hall x) by left.
  apply IH. intros y Hy. apply Hall. by right.
Qed.

Section diff_keys.
Variable plan : Plan.t.
Implicit Types ro co : list (RecordKey.t * list string).

Lemma create_keys_sublist ro :
  key_of_set <$> omap (create_of plan) ro `sublist_of` ro.*1.
Proof.
  induction ro as [|entry ro IH]; [done|]. simpl.
  destruct (create_of plan entry) as [s|] eqn:Hs; simpl.
  - apply create_of_Some in Hs as [_ ->]. rewrite key_of_set_of.
    by apply sublist_skip.
  - by apply sublist_cons.
Qed.

Lemma delete_keys_sublist co :
  key_of_set <$> omap (delete_of plan) co `sublist_of` co.*1.
Proof.
  induction co as [|entry co IH]; [done|]. simpl.
  destruct (delete_of plan entry) as [s|] eqn:Hs; simpl.
  - apply delete_of_Some in Hs as [_ ->]. rewrite key_of_set_of.
    by apply sublist_skip.
  - by apply sublist_cons.
Qed.

Lemma update_keys_sublist ro :
  key_of_set <$> (omap (update_of plan) ro).*1 `sublist_of` ro.*1.
Proof.
  induction ro as [|entry ro IH]; [done|]. simpl.
  destruct (update_of plan entry) as [[old new]|] eqn:Hs; simpl.
  - apply update_of_Some in Hs as (current & _ & _ & -> & _).
    rewrite key_of_set_of. by apply sublist_skip.
  - by apply sublist_cons.
Qed.

Lemma update_keys_paired ro :
  key_of_set <$> (omap (update_of plan) ro).*1
  = key_of_set <$> (omap (update_of plan) ro).*2.
Proof.
  induction ro as [|entry ro IH]; [done|]. simpl.
  destruct (update_of plan entry) as [[old new]|] eqn:Hs; simpl; [|done].
  apply update_of_Some in Hs as (current & _ & _ & -> & ->).
  rewrite !key_of_set_of. f_equal. exact IH.
Qed.

Lemma update_key ro key :
  key ∈ key_of_set <$> (omap (update_of plan) ro).*1 →
  ∃ desired current,
    (key, desired) ∈ ro
    ∧ Plan.CurrentTargets plan !! key = Some current
    ∧ TargetSliceEquals current desired = false.
Proof.
  intros (old & -> & ([old' new] & -> & Hin)%list_elem_of_fmap)%list_elem_of_fmap.
  apply update_entry in Hin as ([k desired] & current & Hin & Hc & Hne & -> & _).
  simpl in *. rewrite key_of_set_of. by exists desired, current.
Qed.

Lemma update_positions ro i old new :
  (omap (update_of plan) ro).*1 !! i = Some old →
  (omap (update_of plan) ro).*2 !! i = Some new →
  omap (update_of plan) ro !! i = Some (old, new).
Proof.
  rewrite !list_lookup_fmap.
  destruct (omap (update_of plan) ro !! i) as [[o n]|]; [|done].
  simpl. by intros [= ->] [= ->].
Qed.
End diff_keys.

Lemma apply_policies_fold (policies : list Policy) (changes : option Changes.t) :
  apply_policies policies changes
  = fold_left (λ c pol, Apply pol c) policies changes.
Proof.
  revert changes. induction policies as [|pol rest IH]; intros changes; [done|].
  simpl. apply IH.
Qed.

Lemma apply_policies_snoc (policies : list Policy) (pol : Policy)
    (changes : option Changes.t) :
  apply_policies (policies ++ [pol]) changes
  = Apply pol (apply_policies policies changes).
Proof. by rewrite !apply_policies_fold, fold_left_app. Qed.

(** With disjoint key sets the first loop only creates and the second loop
    deletes every current entry. *)
Lemma diff_disjoint (plan : Plan.t) (ro co : list (RecordKey.t * list string)) :
  dom (Plan.RecordTargets plan) ## dom (Plan.CurrentTargets plan) →
  range_order (Plan.RecordTargets plan) ro →
  range_order (Plan.CurrentTargets plan) co →
  diff ro co plan
  = {| Changes.Create := (λ e, set_of e.1 e.2 None) <$> ro;
       Changes.UpdateOld := [];
       Changes.UpdateNew := [];
       Changes.Delete :=
         (λ e, set_of e.1 e.2 (index_labels (Plan.Labels plan) e.1)) <$> co |}.
Proof.
  intros Hdisj Hro Hco. rewrite diff_lists.
  assert (Hr : ∀ e, e ∈ ro → Plan.CurrentTargets plan !! e.1 = None).
  { intros [k v] Hin. apply not_elem_of_dom. intros Hk.
    apply (Hdisj k); [|done].
    apply elem_of_dom. exists v. by apply (range_order_elem _ ro). }
  assert (Hc : ∀ e, e ∈ co → Plan.RecordTargets plan !! e.1 = None).
  { intros [k v] Hin. apply not_elem_of_dom. intros Hk.
    apply (Hdisj k); [done|].
    apply elem_of_dom. exists v. by apply (range_order_elem _ co). }
  rewrite (omap_all_Some (create_of plan) (λ e, set_of e.1 e.2 None)),
    (omap_all_None (update_of plan)),
    (omap_all_Some (delete_of plan)
       (λ e, set_of e.1 e.2 (index_labels (Plan.Labels plan) e.1))); [done|..].
  - intros e He. unfold delete_of. by rewrite (Hc e He).
  - intros e He. unfold update_of. by rewrite (Hr e He).
  - intros e He. unfold create_of. by rewrite (Hr e He).
Qed.

Section calculate_claims.
Context `{EndpointConsts}.

(** C1: when the keys aggregated from the desired list and those
    aggregated from the current list are disjoint, the computed changes
    have one [Create] entry per desired bucket, with the bucket's targets
    and nil labels, one [Delete] entry per current bucket, with the
    bucket's targets and the labels recorded for its key, and no update
    entry; the returned plan carries these changes as passed through the
    plan's policy. *)
Theorem C1_disjoint_keys_create_and_delete
    (current desired : list Endpoint.t) (policy : Policy)
    (ro co : list (RecordKey.t * list string)) :
  let plan := NewPlan current desired policy in
  let changes := diff ro co plan in
  dom (Plan.RecordTargets plan) ## dom (Plan.CurrentTargets plan) →
  range_order (Plan.RecordTargets plan) ro →
  range_order (Plan.CurrentTargets plan) co →
  Changes.Create changes = (λ e, set_of e.1 e.2 None) <$> ro
  ∧ Changes.Create changes
    ≡ₚ (λ e, set_of e.1 e.2 None) <$> map_to_list (Plan.RecordTargets plan)
  ∧ Changes.Delete changes
    = (λ e, set_of e.1 e.2 (index_labels (Plan.Labels plan) e.1)) <$> co
  ∧ Changes.Delete changes
    ≡ₚ (λ e, set_of e.1 e.2 (index_labels (Plan.Labels plan) e.1))
         <$> map_to_list (Plan.CurrentTargets plan)
  ∧ Changes.UpdateOld changes = []
  ∧ Changes.UpdateNew changes = []
  ∧ Plan.Changes (Calculate ro co plan) = Apply policy (Some changes).
Proof.
  intros plan changes Hdisj Hro Hco.
  pose proof (diff_disjoint plan ro co Hdisj Hro Hco) as Hdiff.
  fold changes in Hdiff.
  split_and!; try (by rewrite Hdiff).
  - rewrite Hdiff. simpl. by rewrite Hro.
  - rewrite Hdiff. simpl. by rewrite Hco.
  - reflexivity.
Qed.
End calculate_claims.

(** C2: a key whose current and desired target lists are equal as multisets
    (equal up to a permutation, duplicates counted) gets no entry in any of
    the four lists computed by [Calculate]. *)
Theorem C2_multiset_equal_targets_yield_no_change
    (plan : Plan.t) (ro co : list (RecordKey.t * list string))
    (key : RecordKey.t) (current desired : list string) :
  let changes := diff ro co plan in
  range_order (Plan.RecordTargets plan) ro →
  range_order (Plan.CurrentTargets plan) co →
  Plan.CurrentTargets plan !! key = Some current →
  Plan.RecordTargets plan !! key = Some desired →
  current ≡ₚ desired →
  (key ∉ key_of_set <$> Changes.Create changes)
  ∧ (key ∉ key_of_set <$> Changes.UpdateOld changes)
  ∧ (key ∉ key_of_set <$> Changes.UpdateNew changes)
  ∧ (key ∉ key_of_set <$> Changes.Delete changes).
Proof.
  intros changes Hro Hco Hcur Hdes Hperm. unfold changes.
  rewrite diff_lists. simpl.
  assert (Hupd : key ∉ (key_of_set <$> (omap (update_of plan) ro).*1)).
  { intros (desired' & current' & Hin & Hc & Hne)%update_key.
    apply (range_order_elem (Plan.RecordTargets plan) ro) in Hin; [|done].
    assert (current' = current) as -> by congruence.
    assert (desired' = desired) as -> by congruence.
    apply TargetSliceEquals_true in Hperm. congruence. }
  split_and!.
  - intros [_ Hnone]%create_key. congruence.
  - done.
  - by rewrite <- update_keys_paired.
  - intros [_ Hnone]%delete_key. congruence.
Qed.

(** C3: in the changes computed by [Calculate], before policies, a key has at
    most one entry among [Create], the update pairs and [Delete] taken
    together; [UpdateOld] and [UpdateNew] have the same length and the same
    key at every position; both entries of a pair carry the labels recorded
    for their key; and a key present on both sides with different target
    multisets has its pair, with the current and the desired targets. *)
Theorem C3_changes_are_partitioned_and_paired
    (plan : Plan.t) (ro co : list (RecordKey.t * list string)) :
  let changes := diff ro co plan in
  let labels_of := index_labels (Plan.Labels plan) in
  range_order (Plan.RecordTargets plan) ro →
  range_order (Plan.CurrentTargets plan) co →
  NoDup (key_of_set <$> Changes.Create changes ++ Changes.UpdateOld changes
                         ++ Changes.Delete changes)
  ∧ length (Changes.UpdateOld changes) = length (Changes.UpdateNew changes)
  ∧ key_of_set <$> Changes.UpdateOld changes
    = key_of_set <$> Changes.UpdateNew changes
  ∧ (∀ i old new,
        Changes.UpdateOld changes !! i = Some old →
        Changes.UpdateNew changes !! i = Some new →
        key_of_set old = key_of_set new
        ∧ EndpointSet.Labels old = labels_of (key_of_set old)
        ∧ EndpointSet.Labels new = labels_of (key_of_set old))
  ∧ (∀ key current desired,
        Plan.CurrentTargets plan !! key = Some current →
        Plan.RecordTargets plan !! key = Some desired →
        ¬ current ≡ₚ desired →
        ∃ i, Changes.UpdateOld changes !! i
             = Some (set_of key current (labels_of key))
             ∧ Changes.UpdateNew changes !! i
               = Some (set_of key desired (labels_of key))).
Proof.
  intros changes labels_of Hro Hco. unfold changes, labels_of.
  rewrite diff_lists. simpl. split_and!.
  - rewrite !fmap_app. apply NoDup_app. split_and!.
    + eapply sublist_NoDup; [|apply create_keys_sublist].
      by apply (range_order_NoDup (Plan.RecordTargets plan)).
    + intros key [_ Hnone]%create_key [Hu|Hd]%elem_of_app.
      * apply update_key in Hu as (? & ? & _ & Hc & _). congruence.
      * apply delete_key in Hd as [Hin _].
        apply (range_order_key (Plan.CurrentTargets plan)) in Hin as [? ?];
          [congruence|done].
    + apply NoDup_app. split_and!.
      * eapply sublist_NoDup; [|apply update_keys_sublist].
        by apply (range_order_NoDup (Plan.RecordTargets plan)).
      * intros key (desired & ? & Hin & _)%update_key [_ Hnone]%delete_key.
        apply (range_order_elem (Plan.RecordTargets plan) ro) in Hin; [congruence|done].
      * eapply sublist_NoDup; [|apply delete_keys_sublist].
        by apply (range_order_NoDup (Plan.CurrentTargets plan)).
  - by rewrite !length_fmap.
  - apply update_keys_paired.
  - intros i old new Hold Hnew.
    pose proof (update_positions plan ro i old new Hold Hnew) as Hpair.
    apply list_elem_of_lookup_2, update_entry in Hpair
      as (entry & current & _ & _ & _ & -> & ->).
    by rewrite !key_of_set_of.
  - intros key current desired Hcur Hdes Hne.
    assert (Hin : (key, desired) ∈ ro)
      by (by apply (range_order_elem (Plan.RecordTargets plan) ro)).
    assert (Hupd : update_of plan (key, desired)
                   = Some (set_of key current (index_labels (Plan.Labels plan) key),
                           set_of key desired (index_labels (Plan.Labels plan) key))).
    { unfold update_of. simpl. rewrite Hcur.
      destruct (TargetSliceEquals current desired) eqn:Heq; [|done].
      by apply TargetSliceEquals_true in Heq. }
    assert (Hmem : (set_of key current (index_labels (Plan.Labels plan) key),
                    set_of key desired (index_labels (Plan.Labels plan) key))
                   ∈ omap (update_of plan) ro).
    { apply list_elem_of_omap. by exists (key, desired). }
    apply list_elem_of_lookup_1 in Hmem as [i Hi].
    exists i. rewrite !list_lookup_fmap, Hi. done.
Qed.

(** C9: the policies run in list order, each on the result of the one before
    it and the first on the computed changes: the changes of the returned
    plan are the left-to-right fold of [Apply] over the policy list, hence
    the output of the last policy applied to what the others gave. *)
Theorem C9_policies_fold_left_to_right
    (plan : Plan.t) (ro co : list (RecordKey.t * list string)) :
  Plan.Changes (Calculate ro co plan)
  = fold_left (λ c pol, Apply pol c) (Plan.Policies plan)
              (Some (diff ro co plan))
  ∧ (∀ aliases labels currents records changes first rest,
        Plan.Changes
          (Calculate ro co (Plan.mk aliases labels currents records
                                    (first :: rest) changes))
        = apply_policies rest
            (Apply first
               (Some (diff ro co (Plan.mk aliases labels currents records
                                          (first :: rest) changes)))))
  ∧ (∀ aliases labels currents records changes init last,
        Plan.Changes
          (Calculate ro co (Plan.mk aliases labels currents records
                                    (init ++ [last]) changes))
        = Apply last
            (Plan.Changes
               (Calculate ro co (Plan.mk aliases labels currents records
                                         init changes))))
  ∧ (∀ aliases labels currents records changes,
        Plan.Changes
          (Calculate ro co (Plan.mk aliases labels currents records [] changes))
        = Some (diff ro co (Plan.mk aliases labels currents records
                                    [] changes))).
Proof.
  split_and!.
  - apply apply_policies_fold.
  - done.
  - intros. simpl. by rewrite apply_policies_snoc.
  - done.
Qed.

(** C10: [Calculate] writes nothing through its receiver: after the call the
    store holds the same plan at the receiver's address (so a nil [Changes]
    is still nil) and at every other address that was allocated; the result
    is a fresh plan that carries the computed changes, the receiver's
    [Aliases], [CurrentTargets] and [RecordTargets], and an empty policy
    list, so that a [Calculate] on it applies no policy. *)
Theorem C10_Calculate_does_not_mutate_receiver
    (σ : store) (recv : positive) (plan : Plan.t)
    (ro co : list (RecordKey.t * list string)) :
  σ !! recv = Some plan →
  ∃ l σ' result,
    Calculate_method ro co σ recv = Some (l, σ')
    ∧ σ !! l = None
    ∧ l ≠ recv
    ∧ σ' !! recv = Some plan
    ∧ (∀ a, a ≠ l → σ' !! a = σ !! a)
    ∧ (Plan.Changes plan = None → Plan.Changes <$> σ' !! recv = Some None)
    ∧ σ' !! l = Some result
    ∧ Plan.Changes result
      = apply_policies (Plan.Policies plan) (Some (diff ro co plan))
    ∧ Plan.Policies result = []
    ∧ Plan.Aliases result = Plan.Aliases plan
    ∧ Plan.CurrentTargets result = Plan.CurrentTargets plan
    ∧ Plan.RecordTargets result = Plan.RecordTargets plan
    ∧ (∀ ro' co', Plan.Changes (Calculate ro' co' result)
                  = Some (diff ro' co' result)).
Proof.
  intros Hrecv.
  assert (Hfresh : σ !! fresh (dom σ) = None).
  { apply not_elem_of_dom, is_fresh. }
  assert (Hne : fresh (dom σ) ≠ recv) by (intros Heq; congruence).
  exists (fresh (dom σ)), (<[fresh (dom σ) := Calculate ro co plan]> σ),
    (Calculate ro co plan).
  unfold Calculate_method. rewrite Hrecv.
  split_and!; try done.
  - by rewrite lookup_insert_ne.
  - intros a Ha. by rewrite lookup_insert_ne by congruence.
  - intros Hnil. rewrite lookup_insert_ne, Hrecv by done. simpl. by rewrite Hnil.
  - by rewrite lookup_insert_eq.
Qed.

(** ** The theorems at concrete inputs *)

Lemma C1_witness :
  let current := [Endpoint.mk "y.com" "5.6.7.8" "A" false (owner_is "me")] in
  let desired := [Endpoint.mk "x.com" "1.2.3.4" "A" false None] in
  let plan := demo_plan current desired in
  let ro := [(key_x, ["1.2.3.4"])] in
  let co := [(key_y, ["5.6.7.8"])] in
  (dom (Plan.RecordTargets plan) ## dom (Plan.CurrentTargets plan)
   ∧ range_order (Plan.RecordTargets plan) ro
   ∧ range_order (Plan.CurrentTargets plan) co)
  ∧ Changes.Create (diff ro co plan)
    = [EndpointSet.mk "x.com" "A" ["1.2.3.4"] None]
  ∧ Changes.Delete (diff ro co plan)
    = [EndpointSet.mk "y.com" "A" ["5.6.7.8"] (owner_is "me")]
  ∧ Changes.UpdateOld (diff ro co plan) = []
  ∧ Changes.UpdateNew (diff ro co plan) = [].
Proof.
  intros current desired plan ro co.
  assert (Hdisj : dom (Plan.RecordTargets plan) ## dom (Plan.CurrentTargets plan)).
  { compute_done. }
  assert (Hro : range_order (Plan.RecordTargets plan) ro)
    by (by vm_compute).
  assert (Hco : range_order (Plan.CurrentTargets plan) co)
    by (by vm_compute).
  split; [done|].
  destruct (@C1_disjoint_keys_create_and_delete demo_consts current desired
              sync_policy ro co Hdisj Hro Hco)
    as (Hc & _ & Hd & _ & Huo & Hun & _).
  split_and!;
    [etrans; [exact Hc|]|etrans; [exact Hd|]|exact Huo|exact Hun];
    by vm_compute.
Defined.

Lemma C2_witness :
  let current := [Endpoint.mk "x.com" "a" "A" false (owner_is "me");
                  Endpoint.mk "x.com" "b" "A" false (owner_is "me");
                  Endpoint.mk "x.com" "a" "A" false (owner_is "me")] in
  let desired := [Endpoint.mk "x.com" "a" "A" false None;
                  Endpoint.mk "x.com" "a" "A" false None;
                  Endpoint.mk "x.com" "b" "A" false None] in
  let plan := demo_plan current desired in
  let ro := [(key_x, ["a"; "a"; "b"])] in
  let co := [(key_x, ["a"; "b"; "a"])] in
  (range_order (Plan.RecordTargets plan) ro
   ∧ range_order (Plan.CurrentTargets plan) co
   ∧ Plan.CurrentTargets plan !! key_x = Some ["a"; "b"; "a"]
   ∧ Plan.RecordTargets plan !! key_x = Some ["a"; "a"; "b"]
   ∧ ["a"; "b"; "a"] ≡ₚ ["a"; "a"; "b"])
  ∧ (key_x ∉ key_of_set <$> Changes.Create (diff ro co plan))
  ∧ (key_x ∉ key_of_set <$> Changes.UpdateOld (diff ro co plan))
  ∧ (key_x ∉ key_of_set <$> Changes.UpdateNew (diff ro co plan))
  ∧ (key_x ∉ key_of_set <$> Changes.Delete (diff ro co plan)).
Proof.
  intros current desired plan ro co.
  assert (Hro : range_order (Plan.RecordTargets plan) ro) by (by vm_compute).
  assert (Hco : range_order (Plan.CurrentTargets plan) co) by (by vm_compute).
  assert (Hcur : Plan.CurrentTargets plan !! key_x = Some ["a"; "b"; "a"])
    by (by vm_compute).
  assert (Hdes : Plan.RecordTargets plan !! key_x = Some ["a"; "a"; "b"])
    by (by vm_compute).
  assert (Hperm : (["a"; "b"; "a"] : list string) ≡ₚ ["a"; "a"; "b"])
    by compute_done.
  split; [done|].
  exact (C2_multiset_equal_targets_yield_no_change plan ro co key_x
           ["a"; "b"; "a"] ["a"; "a"; "b"] Hro Hco Hcur Hdes Hperm).
Defined.

Lemma C3_witness :
  let current := [Endpoint.mk "x.com" "1.2.3.4" "A" false (owner_is "me")] in
  let desired := [Endpoint.mk "x.com" "5.6.7.8" "A" false None] in
  let plan := demo_plan current desired in
  let ro := [(key_x, ["5.6.7.8"])] in
  let co := [(key_x, ["1.2.3.4"])] in
  (range_order (Plan.RecordTargets plan) ro
   ∧ range_order (Plan.CurrentTargets plan) co)
  ∧ NoDup (key_of_set <$> Changes.Create (diff ro co plan)
                           ++ Changes.UpdateOld (diff ro co plan)
                           ++ Changes.Delete (diff ro co plan))
  ∧ Changes.UpdateOld (diff ro co plan)
    = [EndpointSet.mk "x.com" "A" ["1.2.3.4"] (owner_is "me")]
  ∧ Changes.UpdateNew (diff ro co plan)
    = [EndpointSet.mk "x.com" "A" ["5.6.7.8"] (owner_is "me")].
Proof.
  intros current desired plan ro co.
  assert (Hro : range_order (Plan.RecordTargets plan) ro) by (by vm_compute).
  assert (Hco : range_order (Plan.CurrentTargets plan) co) by (by vm_compute).
  split; [done|].
  split; [|by vm_compute].
  exact (proj1 (C3_changes_are_partitioned_and_paired plan ro co Hro Hco)).
Defined.

Lemma C6_witness :
  let desired := [example_alias_target; @example_internal_alias demo_consts] in
  let plan := demo_plan [] desired in
  (@example_internal_alias demo_consts ∈ desired
   ∧ example_alias_target
     ∈ default [] (Plan.Aliases plan !! "lb"))
  ∧ ∃ targets,
      Plan.RecordTargets plan !! RecordKey.mk "CNAME" "app.example.com"
      = Some targets
      ∧ "A" ∈ targets.
Proof.
  intros desired plan.
  assert (Hin : @example_internal_alias demo_consts ∈ desired)
    by (right; left).
  assert (Halias : example_alias_target
                   ∈ default [] (Plan.Aliases plan
                                   !! Endpoint.Target
                                        (@example_internal_alias demo_consts)))
    by (vm_compute; left).
  split; [done|].
  exact (proj1 (proj2
    (@C6_internal_alias_expands_to_alias_targets demo_consts [] desired
       sync_policy (@example_internal_alias demo_consts) example_alias_target
       Hin eq_refl eq_refl Halias))).
Defined.

Lemma C7_witness :
  let ep := Endpoint.mk "app.example.com" "gone" "InternalALIAS" false None in
  let rest := [Endpoint.mk "x.com" "1.2.3.4" "A" false None] in
  Plan.Aliases (demo_plan [] ([] ++ ep :: rest)) !! "gone" = None
  ∧ demo_plan [] ([] ++ ep :: rest) = demo_plan [] ([] ++ rest).
Proof.
  intros ep rest.
  assert (Hnone : Plan.Aliases (demo_plan [] ([] ++ ep :: rest))
                    !! Endpoint.Target ep = None)
    by (by vm_compute).
  split; [done|].
  exact (proj1 (proj2 (proj2
    (@C7_unresolved_internal_alias_is_dropped demo_consts [] [] rest ep
       sync_policy eq_refl eq_refl Hnone)))).
Defined.

Lemma C8_witness :
  let current := [Endpoint.mk "x.com" "1.1.1.1" "A" false (owner_is "first");
                  Endpoint.mk "y.com" "3.3.3.3" "A" false (owner_is "other");
                  Endpoint.mk "x.com" "2.2.2.2" "A" false (owner_is "second")] in
  let plan := demo_plan current [] in
  filter (λ ep, key_of_endpoint ep = key_x) current ≠ []
  ∧ index_labels (Plan.Labels plan) key_x = owner_is "second"
  ∧ Plan.CurrentTargets plan !! key_x = Some ["1.1.1.1"; "2.2.2.2"].
Proof.
  intros current plan.
  assert (Hsame : filter (λ ep, key_of_endpoint ep = key_x) current ≠ [])
    by (by vm_compute).
  split; [done|].
  destruct (@C8_last_current_endpoint_labels_win demo_consts current []
              sync_policy key_x Hsame)
    as [(ep & Hlast & _ & Hlabels) Htargets].
  split; [|exact Htargets].
  etrans; [exact Hlabels|].
  vm_compute in Hlast. by injection Hlast as <-.
Defined.

Lemma C10_witness :
  let plan := demo_plan
                [Endpoint.mk "x.com" "1.2.3.4" "A" false (owner_is "me")]
                [Endpoint.mk "x.com" "5.6.7.8" "A" false None] in
  let σ : store := {[ 1%positive := plan ]} in
  let ro := [(key_x, ["5.6.7.8"])] in
  let co := [(key_x, ["1.2.3.4"])] in
  σ !! 1%positive = Some plan
  ∧ ∃ l σ' result,
      Calculate_method ro co σ 1%positive = Some (l, σ')
      ∧ l ≠ 1%positive
      ∧ σ' !! 1%positive = Some plan
      ∧ σ' !! l = Some result
      ∧ Plan.Policies result = [].
Proof.
  intros plan σ ro co.
  assert (Hrecv : σ !! 1%positive = Some plan) by apply lookup_singleton_eq.
  split; [done|].
  destruct (C10_Calculate_does_not_mutate_receiver σ 1%positive plan ro co Hrecv)
    as (l & σ' & result & Hcall & _ & Hne & Hsame & _ & _ & Hres & _ & Hpol & _).
  by exists l, σ', result.
Defined.

(** * Further properties *)

(** ** Strings *)

Lemma str_app_cons (c : Ascii.ascii) (a b : string) :
  String c a +:+ b = String c (a +:+ b).
Proof. reflexivity. Qed.

Lemma str_app_nil_r (s : string) : s +:+ "" = s.
Proof.
  induction s as [|c s IH]; [done|]. by rewrite str_app_cons, IH.
Qed.

Lemma str_app_assoc (a b c : string) : (a +:+ b) +:+ c = a +:+ b +:+ c.
Proof.
  induction a as [|x a IH]; [done|]. by rewrite !str_app_cons, IH.
Qed.

Lemma str_length_app (a b : string) :
  String.length (a +:+ b) = String.length a + String.length b.
Proof.
  induction a as [|x a IH]; [done|]. rewrite str_app_cons. cbn. by rewrite IH.
Qed.

Lemma str_take_app (a b : string) : str_take (String.length a) (a +:+ b) = a.
Proof.
  induction a as [|x a IH]; [by destruct b|].
  rewrite str_app_cons. cbn. by rewrite IH.
Qed.

Lemma str_drop_app (a b : string) : str_drop (String.length a) (a +:+ b) = b.
Proof.
  induction a as [|x a IH]; [by destruct b|]. rewrite str_app_cons. exact IH.
Qed.

Lemma str_take_drop (n : nat) (s : string) : str_take n s +:+ str_drop n s = s.
Proof.
  revert s. induction n as [|n IH]; intros [|c s]; try done.
  cbn [str_take str_drop]. by rewrite str_app_cons, IH.
Qed.

Lemma str_length_drop (n : nat) (s : string) :
  String.length (str_drop n s) = String.length s - n.
Proof.
  revert s. induction n as [|n IH]; intros [|c s]; try done. apply IH.
Qed.

Lemma str_length_nil (s : string) : String.length s = 0 → s = "".
Proof. by destruct s. Qed.

Lemma HasSuffix_true (s suffix : string) :
  HasSuffix s suffix = true ↔ ∃ p, s = p +:+ suffix.
Proof.
  unfold HasSuffix. rewrite andb_true_iff, !bool_decide_eq_true. split.
  - intros [_ Hdrop].
    exists (str_take (String.length s - String.length suffix) s).
    pose proof (str_take_drop (String.length s - String.length suffix) s) as Hs.
    by rewrite Hdrop in Hs.
  - intros [p ->]. rewrite str_length_app. split; [lia|].
    replace (String.length p + String.length suffix - String.length suffix)
      with (String.length p) by lia.
    apply str_drop_app.
Qed.

Lemma HasSuffix_length (s suffix : string) :
  HasSuffix s suffix = true → String.length suffix ≤ String.length s.
Proof.
  unfold HasSuffix. rewrite andb_true_iff, bool_decide_eq_true. by intros [? _].
Qed.

Lemma HasPrefix_true (s prefix : string) :
  HasPrefix s prefix = true ↔ ∃ r, s = prefix +:+ r.
Proof.
  unfold HasPrefix. rewrite andb_true_iff, !bool_decide_eq_true. split.
  - intros [_ Htake]. exists (str_drop (String.length prefix) s).
    pose proof (str_take_drop (String.length prefix) s) as Hs.
    by rewrite Htake in Hs.
  - intros [r ->]. rewrite str_length_app. split; [lia|]. apply str_take_app.
Qed.

Lemma TrimSuffix_app (p suffix : string) : TrimSuffix (p +:+ suffix) suffix = p.
Proof.
  unfold TrimSuffix.
  rewrite (proj2 (HasSuffix_true (p +:+ suffix) suffix)) by by exists p.
  rewrite str_length_app.
  replace (String.length p + String.length suffix - String.length suffix)
    with (String.length p) by lia.
  apply str_take_app.
Qed.

Lemma TrimPrefix_app (prefix r : string) : TrimPrefix (prefix +:+ r) prefix = r.
Proof.
  unfold TrimPrefix.
  rewrite (proj2 (HasPrefix_true (prefix +:+ r) prefix)) by by exists r.
  apply str_drop_app.
Qed.

(** ** The Azure provider: [findZone] *)

Section findZone_facts.
Variable zones : list Zone.t.
Variable name : string.

Lemma found_among_all idx result :
  length zones ≤ idx →
  found_among zones name idx result →
  found_among zones name (length zones) result.
Proof.
  intros Hidx. destruct result as [i|]; simpl.
  - intros (_ & resultName & Hi & Hsuf & Hmax). split.
    + destruct (zones !! i) eqn:Hz; [|done].
      by apply lookup_lt_Some in Hz.
    + exists resultName. split_and!; [done..|].
      intros j zoneName Hj. apply Hmax. lia.
  - intros Hnone j zoneName Hj. apply Hnone. lia.
Qed.

Lemma findZone_from_found rest :
  Forall (λ z, is_Some (Zone.Name z)) rest →
  ∀ done result,
    zones = done ++ rest →
    found_among zones name (length done) result →
    ∃ r, findZone_from zones rest (length done) name result = Some r
         ∧ found_among zones name (length zones) r.
Proof.
  induction 1 as [|zone rest [zoneName Hname] _ IH]; intros done result Hz Hinv.
  - exists result. split; [done|].
    apply (found_among_all (length done)); [|done].
    subst zones. rewrite length_app. simpl. lia.
  - assert (Hidx : zones !! length done ≫= Zone.Name = Some zoneName).
    { subst zones. by rewrite list_lookup_middle. }
    assert (Hnext : zones = (done ++ [zone]) ++ rest)
      by (by rewrite <- app_assoc).
    assert (Hlen : length (done ++ [zone]) = S (length done))
      by (rewrite length_app; simpl; lia).
    assert (Hstep : ∀ result',
               found_among zones name (S (length done)) result' →
               ∃ r, findZone_from zones rest (S (length done)) name result'
                    = Some r
                    ∧ found_among zones name (length zones) r).
    { intros result' Hinv'. rewrite <- Hlen in *. by apply IH. }
    cbn [findZone_from]. rewrite Hname. simpl.
    destruct (HasSuffix name zoneName) eqn:Hsuf.
    + destruct result as [r|]; simpl in Hinv.
      * destruct Hinv as (Hr & resultName & Hrn & Hrsuf & Hmax).
        rewrite Hrn. simpl. case_bool_decide as Hlonger; apply Hstep; simpl.
        -- split; [lia|]. exists zoneName. split_and!; [done..|].
           intros j zn Hj Hzn Hjsuf.
           destruct (decide (j = length done)) as [->|Hne].
           ++ assert (zn = zoneName) as -> by congruence. done.
           ++ destruct (Hmax j zn) as [Hle _]; [lia|done..|]. lia.
        -- split; [lia|]. exists resultName. split_and!; [done..|].
           intros j zn Hj Hzn Hjsuf.
           destruct (decide (j = length done)) as [->|Hne].
           ++ assert (zn = zoneName) as -> by congruence. lia.
           ++ apply Hmax; [lia|done..].
      * apply Hstep. simpl. split; [lia|].
        exists zoneName. split_and!; [done..|].
        intros j zn Hj Hzn Hjsuf.
        destruct (decide (j = length done)) as [->|Hne].
        -- assert (zn = zoneName) as -> by congruence. done.
        -- rewrite (Hinv j zn) in Hjsuf; [done|lia|done].
    + apply Hstep. destruct result as [r|]; simpl in *.
      * destruct Hinv as (Hr & resultName & Hrn & Hrsuf & Hmax).
        split; [lia|]. exists resultName. split_and!; [done..|].
        intros j zn Hj Hzn Hjsuf.
        destruct (decide (j = length done)) as [->|Hne].
        -- congruence.
        -- apply Hmax; [lia|done..].
      * intros j zn Hj Hzn.
        destruct (decide (j = length done)) as [->|Hne].
        -- congruence.
        -- apply (Hinv j); [lia|done].
Qed.

Lemma findZone_from_nil_name rest idx result :
  Exists (λ z, Zone.Name z = None) rest →
  findZone_from zones rest idx name result = None.
Proof.
  intros Hex. revert idx result.
  induction Hex as [zone rest Hnil|zone rest _ IH]; intros idx result.
  - cbn [findZone_from]. by rewrite Hnil.
  - cbn [findZone_from]. destruct (Zone.Name zone) as [zoneName|]; [|done].
    simpl. destruct (HasSuffix name zoneName); [|apply IH].
    destruct result as [r|]; [|apply IH].
    destruct (zones !! r ≫= Zone.Name) as [resultName|]; [|done].
    simpl. case_bool_decide; apply IH.
Qed.
End findZone_facts.

Lemma findZone_found (zones : list Zone.t) (name : string) :
  Forall (λ z, is_Some (Zone.Name z)) zones →
  ∃ result,
    findZone zones name = Some result
    ∧ found_among zones name (length zones) result.
Proof.
  intros Hnamed.
  apply (findZone_from_found zones name zones Hnamed [] None); [done|].
  simpl. intros j ? Hj. lia.
Qed.

Lemma findZone_Some_named (zones : list Zone.t) (name : string) result :
  findZone zones name = Some result →
  Forall (λ z, is_Some (Zone.Name z)) zones.
Proof.
  intros Hfind. apply Forall_forall. intros z Hz.
  destruct (Zone.Name z) as [zoneName|] eqn:Hname; [done|].
  unfold findZone in Hfind.
  rewrite (findZone_from_nil_name zones name zones 0 None) in Hfind; [done|].
  apply Exists_exists. by exists z.
Qed.

(** X1: when every zone has a name, [findZone] returns nil exactly when no
    zone name is a suffix of [name], and otherwise the first, in list order,
    of the zones with the longest name that is a suffix of [name]. *)
Theorem X1_findZone_first_longest_suffix
    (zones : list Zone.t) (name : string) :
  Forall (λ z, is_Some (Zone.Name z)) zones →
  ∃ result,
    findZone zones name = Some result
    ∧ match result with
      | None =>
          ∀ j zoneName, zones !! j ≫= Zone.Name = Some zoneName →
                        HasSuffix name zoneName = false
      | Some i =>
          ∃ resultName,
            zones !! i ≫= Zone.Name = Some resultName
            ∧ HasSuffix name resultName = true
            ∧ ∀ j zoneName,
                zones !! j ≫= Zone.Name = Some zoneName →
                HasSuffix name zoneName = true →
                String.length zoneName ≤ String.length resultName
                ∧ (String.length zoneName = String.length resultName → i ≤ j)
      end.
Proof.
  intros Hnamed.
  destruct (findZone_found zones name Hnamed) as (result & Hfind & Hfound).
  exists result. split; [done|].
  assert (Hlt : ∀ j zoneName, zones !! j ≫= Zone.Name = Some zoneName →
                              j < length zones).
  { intros j zoneName Hj. destruct (zones !! j) eqn:Hz; [|done].
    by apply lookup_lt_Some in Hz. }
  destruct result as [i|]; simpl in Hfound.
  - destruct Hfound as (_ & resultName & Hi & Hsuf & Hmax).
    exists resultName. split_and!; [done..|].
    intros j zoneName Hj. apply Hmax; [|done]. by apply (Hlt j zoneName).
  - intros j zoneName Hj. apply (Hfound j); [|done]. by apply (Hlt j zoneName).
Qed.

(** X2: [findZone] completes exactly when every zone has a name: one zone
    with a nil [Name], anywhere in the list, makes the loop dereference nil,
    whatever [name] is. *)
Theorem X2_findZone_needs_named_zones (zones : list Zone.t) (name : string) :
  is_Some (findZone zones name)
  ↔ Forall (λ z, is_Some (Zone.Name z)) zones.
Proof.
  split.
  - intros [result Hfind]. by apply (findZone_Some_named zones name result).
  - intros Hnamed.
    destruct (findZone_found zones name Hnamed) as (result & -> & _).
    done.
Qed.

(** ** The Azure provider: record set names *)

Lemma TrimSuffix_dot_nil : TrimSuffix "" "." = "".
Proof. reflexivity. Qed.

Lemma recordSetNameForZone_cut (zoneName p : string) (endpointSet : EndpointSet.t) :
  EndpointSet.DNSName endpointSet = p +:+ zoneName →
  recordSetNameForZone (Zone.mk (Some zoneName)) endpointSet
  = Some (if bool_decide (TrimSuffix p "." = "") then "@" else TrimSuffix p ".").
Proof.
  intros Hname. unfold recordSetNameForZone. simpl.
  rewrite Hname, str_length_app.
  rewrite bool_decide_eq_true_2 by lia.
  replace (String.length p + String.length zoneName - String.length zoneName)
    with (String.length p) by lia.
  rewrite str_take_app. by case_bool_decide.
Qed.

(** X3: the relative name that [recordSetNameForZone] computes for the
    full name [formatAzureDNSName recordName zoneName] is [recordName] again,
    for every non-empty [recordName] (the root marker [@] included). *)
Theorem X3_recordSetName_of_formatted_name
    (recordName zoneName : string) (endpointSet : EndpointSet.t) :
  recordName ≠ "" →
  EndpointSet.DNSName endpointSet = formatAzureDNSName recordName zoneName →
  recordSetNameForZone (Zone.mk (Some zoneName)) endpointSet = Some recordName.
Proof.
  intros Hne Hname. unfold formatAzureDNSName in Hname.
  case_bool_decide as Hroot.
  - subst recordName.
    rewrite (recordSetNameForZone_cut zoneName "" endpointSet) by done.
    done.
  - rewrite (recordSetNameForZone_cut zoneName (recordName +:+ ".") endpointSet)
      by (by rewrite str_app_assoc).
    rewrite TrimSuffix_app. by rewrite bool_decide_eq_false_2.
Qed.

(** X4: for a name that is the zone name itself, or a non-empty prefix other
    than [@] followed by a dot and the zone name, [formatAzureDNSName] maps
    the relative name computed by [recordSetNameForZone] back to the name. *)
Theorem X4_formatted_name_of_recordSetName
    (zoneName : string) (endpointSet : EndpointSet.t) :
  EndpointSet.DNSName endpointSet = zoneName
  ∨ (∃ p, p ≠ "" ∧ p ≠ "@"
          ∧ EndpointSet.DNSName endpointSet = p +:+ "." +:+ zoneName) →
  ∃ recordName,
    recordSetNameForZone (Zone.mk (Some zoneName)) endpointSet = Some recordName
    ∧ formatAzureDNSName recordName zoneName = EndpointSet.DNSName endpointSet.
Proof.
  intros [Hroot|(p & Hne & Hat & Hname)].
  - exists "@". split; [|by rewrite Hroot].
    by rewrite (recordSetNameForZone_cut zoneName "" endpointSet).
  - exists p. split.
    + rewrite (recordSetNameForZone_cut zoneName (p +:+ ".") endpointSet)
        by (by rewrite str_app_assoc).
      rewrite TrimSuffix_app. by rewrite bool_decide_eq_false_2.
    + unfold formatAzureDNSName. by rewrite bool_decide_eq_false_2.
Qed.

(** X5: [recordSetNameForZone] is defined exactly when the zone has a name
    that is not longer than the record's name, and its result is never the
    empty string. On the zone that [findZone] selects for the record's name
    it is therefore always defined. *)
Theorem X5_recordSetName_defined_on_found_zone
    (zones : list Zone.t) (endpointSet : EndpointSet.t) :
  (∀ zone, is_Some (recordSetNameForZone zone endpointSet)
           ↔ ∃ zoneName, Zone.Name zone = Some zoneName
                         ∧ String.length zoneName
                           ≤ String.length (EndpointSet.DNSName endpointSet))
  ∧ (∀ zone, recordSetNameForZone zone endpointSet ≠ Some "")
  ∧ (∀ i, findZone zones (EndpointSet.DNSName endpointSet) = Some (Some i) →
          ∃ zone recordName,
            zones !! i = Some zone
            ∧ recordSetNameForZone zone endpointSet = Some recordName).
Proof.
  assert (Hdef : ∀ zone,
             is_Some (recordSetNameForZone zone endpointSet)
             ↔ ∃ zoneName, Zone.Name zone = Some zoneName
                           ∧ String.length zoneName
                             ≤ String.length (EndpointSet.DNSName endpointSet)).
  { intros [[zoneName|]]; unfold recordSetNameForZone; simpl.
    - case_bool_decide as Hlen.
      + split; [by exists zoneName|]. intros _. by case_bool_decide.
      + split; [by intros []|]. intros (? & [= <-] & ?). lia.
    - split; [by intros []|]. by intros (? & ? & ?). }
  split_and!; [done| |].
  - intros [[zoneName|]]; unfold recordSetNameForZone; simpl; [|done].
    case_bool_decide; [|done]. case_bool_decide; congruence.
  - intros i Hfind.
    assert (Hnamed : Forall (λ z, is_Some (Zone.Name z)) zones).
    { exact (findZone_Some_named zones (EndpointSet.DNSName endpointSet)
               (Some i) Hfind). }
    destruct (findZone_found zones (EndpointSet.DNSName endpointSet) Hnamed)
      as (result & Hres & Hspec).
    rewrite Hfind in Hres. injection Hres as <-.
    destruct Hspec as (_ & resultName & Hi & Hsuf & _).
    destruct (zones !! i) as [zone|] eqn:Hz; [|done].
    destruct (proj2 (Hdef zone)) as [recordName Hr].
    { exists resultName. split; [done|]. by apply HasSuffix_length. }
    by exists zone, recordName.
Qed.

(** ** The Azure provider: record sets *)

(** X6: [newRecordSet] fails exactly for a CNAME set whose number of targets
    is not one and for a record type other than A, CNAME and TXT; every
    record set that it builds has the TTL 300 and neither name nor type. *)
Theorem X6_newRecordSet_outcome (endpointSet : EndpointSet.t) :
  let recordType := EndpointSet.RecordType endpointSet in
  let targets := EndpointSet.Targets endpointSet in
  match newRecordSet endpointSet with
  | inl recordSet =>
      (recordType = dns_A ∨ recordType = dns_TXT
       ∨ (recordType = dns_CNAME ∧ length targets = 1))
      ∧ RecordSet.Name recordSet = None
      ∧ RecordSet.Type_ recordSet = None
      ∧ ∃ properties,
          RecordSet.RecordSetProperties recordSet = Some properties
          ∧ RecordSetProperties.TTL properties = Some 300%Z
  | inr (UnsupportedCNAMERecordCount n) =>
      recordType = dns_CNAME ∧ n = length targets ∧ n ≠ 1
  | inr (UnsupportedRecordType ty) =>
      ty = recordType ∧ ty ≠ dns_A ∧ ty ≠ dns_CNAME ∧ ty ≠ dns_TXT
  end.
Proof.
  intros recordType targets. unfold newRecordSet.
  fold recordType. fold targets.
  case_bool_decide as HA; [by eauto 10|].
  case_bool_decide as HC.
  - destruct targets as [|t [|t' ts]]; simpl; eauto 10.
  - case_bool_decide as HT; [by eauto 10|]. done.
Qed.

(** X7: reading back a record set built by [newRecordSet] with
    [extractAzureTarget] gives the first target of the endpoint set, and the
    empty string when the set has no target. *)
Theorem X7_extractAzureTarget_of_newRecordSet
    (endpointSet : EndpointSet.t) (recordSet : RecordSet.t) :
  newRecordSet endpointSet = inl recordSet →
  extractAzureTarget recordSet
  = default "" (head (EndpointSet.Targets endpointSet)).
Proof.
  unfold newRecordSet.
  case_bool_decide as HA.
  - intros [= <-]. unfold extractAzureTarget. simpl.
    by destruct (EndpointSet.Targets endpointSet).
  - case_bool_decide as HC.
    + destruct (EndpointSet.Targets endpointSet) as [|t [|t' ts]];
        [done| |done].
      by intros [= <-].
    + case_bool_decide as HT; [|done].
      intros [= <-]. unfold extractAzureTarget. simpl.
      by destruct (EndpointSet.Targets endpointSet).
Qed.

(** ** The Azure provider: [mapChanges] *)

Lemma mapChange_all_buckets (zones : list Zone.t)
    (changes : list EndpointSet.t) :
  Forall (λ z, is_Some (Zone.Name z)) zones →
  ∀ changeMap,
    ∃ changeMap',
      mapChange_all zones changeMap changes = Some changeMap'
      ∧ ∀ z, changeMap' !! z
             = extend (changeMap !! z)
                 (filter (λ c, findZone zones (EndpointSet.DNSName c)
                               = Some (Some z)) changes).
Proof.
  intros Hnamed.
  induction changes as [|change rest IH]; intros changeMap.
  - by exists changeMap.
  - cbn [mapChange_all]. unfold mapChange.
    destruct (findZone_found zones (EndpointSet.DNSName change) Hnamed)
      as (result & Hfind & _).
    rewrite Hfind. simpl. destruct result as [z0|]; simpl.
    + destruct (IH (bucket_append z0 change changeMap)) as (m & Hm & Hlook).
      exists m. split; [done|]. intros z.
      rewrite Hlook, lookup_bucket_append, filter_cons, Hfind.
      destruct (decide (z0 = z)) as [->|Hne].
      * rewrite decide_True by done. by rewrite extend_app.
      * rewrite decide_False by congruence. done.
    + destruct (IH changeMap) as (m & Hm & Hlook).
      exists m. split; [done|]. intros z.
      rewrite Hlook, filter_cons, Hfind.
      by rewrite decide_False.
Qed.

(** X8: when every zone has a name, [mapChanges] returns two maps in which
    the bucket of each zone lists, in order, the [Delete] and then the
    [UpdateOld] sets (for [deleted]) and the [Create] and then the
    [UpdateNew] sets (for [updated]) whose name [findZone] assigns to that
    zone; a zone with no such set has no bucket, and a set whose name matches
    no zone is in no bucket. *)
Theorem X8_mapChanges_groups_by_found_zone
    (zones : list Zone.t) (changes : Changes.t) :
  Forall (λ z, is_Some (Zone.Name z)) zones →
  ∃ deleted updated,
    mapChanges zones changes = Some (deleted, updated)
    ∧ ∀ z,
        deleted !! z
        = extend None
            (filter (λ c, findZone zones (EndpointSet.DNSName c)
                          = Some (Some z))
                    (Changes.Delete changes ++ Changes.UpdateOld changes))
        ∧ updated !! z
          = extend None
              (filter (λ c, findZone zones (EndpointSet.DNSName c)
                            = Some (Some z))
                      (Changes.Create changes ++ Changes.UpdateNew changes)).
Proof.
  intros Hnamed. unfold mapChanges.
  destruct (mapChange_all_buckets zones (Changes.Delete changes) Hnamed ∅)
    as (d1 & -> & Hd1).
  simpl.
  destruct (mapChange_all_buckets zones (Changes.UpdateOld changes) Hnamed d1)
    as (d2 & -> & Hd2).
  simpl.
  destruct (mapChange_all_buckets zones (Changes.Create changes) Hnamed ∅)
    as (u1 & -> & Hu1).
  simpl.
  destruct (mapChange_all_buckets zones (Changes.UpdateNew changes) Hnamed u1)
    as (u2 & -> & Hu2).
  simpl. exists d2, u2. split; [done|]. intros z.
  rewrite Hd2, Hd1, Hu2, Hu1, !lookup_empty, !extend_app, !filter_app.
  done.
Qed.

(** ** The Azure provider: [zones] *)

Section zones_facts.
Variable p : AzureProvider.t.

Lemma zones_loop_end listResult replies acc :
  ZoneListResult.Value listResult = None
  ∨ ZoneListResult.Value listResult = Some [] →
  zones_loop p listResult replies acc = Some (inl acc).
Proof. intros [H|H]; destruct replies; simpl; by rewrite H. Qed.

Lemma zones_loop_pages rest :
  Forall (λ page, page ≠ []) rest →
  ∀ page acc last extra,
    page ≠ [] →
    (ZoneListResult.Value last = None ∨ ZoneListResult.Value last = Some []) →
    zones_loop p (ZoneListResult.mk (Some page))
      ((page_reply <$> rest) ++ inl last :: extra) acc
    = Some (inl (acc ++ List.filter (zone_in_domain p) (concat (page :: rest)))).
Proof.
  induction 1 as [|page' rest Hne' _ IH]; intros page acc last extra Hne Hlast.
  - destruct page as [|zone page]; [done|]. simpl.
    rewrite app_nil_r. by apply zones_loop_end.
  - destruct page as [|zone page]; [done|].
    cbn [zones_loop fmap list_fmap app ZoneListResult.Value page_reply].
    rewrite IH by done.
    cbn [concat]. by rewrite (List.filter_app _ (zone :: page)), app_assoc.
Qed.

Lemma zones_loop_error rest :
  Forall (λ page, page ≠ []) rest →
  ∀ page acc err extra,
    page ≠ [] →
    zones_loop p (ZoneListResult.mk (Some page))
      ((page_reply <$> rest) ++ inr err :: extra) acc
    = Some (inr err).
Proof.
  induction 1 as [|page' rest Hne' _ IH]; intros page acc err extra Hne.
  - by destruct page.
  - destruct page as [|zone page]; [done|].
    cbn [zones_loop fmap list_fmap app ZoneListResult.Value page_reply].
    by apply IH.
Qed.

Lemma zones_loop_in_domain replies :
  ∀ listResult acc zs,
    zones_loop p listResult replies acc = Some (inl zs) →
    Forall (λ z, zone_in_domain p z = true) acc →
    Forall (λ z, zone_in_domain p z = true) zs.
Proof.
  assert (Hfilter : ∀ acc page,
             Forall (λ z, zone_in_domain p z = true) acc →
             Forall (λ z, zone_in_domain p z = true)
                    (acc ++ List.filter (zone_in_domain p) page)).
  { intros acc page Hacc. apply Forall_app. split; [done|].
    apply Forall_forall. intros z Hz.
    apply list_elem_of_In, filter_In in Hz. by destruct Hz. }
  induction replies as [|reply replies IH]; intros listResult acc zs.
  - simpl. destruct (ZoneListResult.Value listResult) as [[|zone page]|];
      by intros [= <-].
  - simpl. destruct (ZoneListResult.Value listResult) as [[|zone page]|];
      try by intros [= <-].
    destruct reply as [listResult'|err]; [|done].
    intros Hloop Hacc. eapply IH; [exact Hloop|].
    by apply (Hfilter acc (zone :: page)).
Qed.
End zones_facts.

(** X9: when the replies to [zones] are non-empty pages followed by an empty
    one, [zones] returns, in order, the zones of all these pages that have a
    name ending in the domain filter; when the pages are followed by an
    error, that error is returned and the zones read so far are dropped. *)
Theorem X9_zones_reads_every_page
    (p : AzureProvider.t) (pages : list (list Zone.t))
    (last : ZoneListResult.t) (err : go_error)
    (extra : list (ZoneListResult.t + go_error)) :
  Forall (λ page, page ≠ []) pages →
  ZoneListResult.Value last = None ∨ ZoneListResult.Value last = Some [] →
  zones p ((page_reply <$> pages) ++ inl last :: extra)
  = Some (inl (List.filter (zone_in_domain p) (concat pages)))
  ∧ zones p ((page_reply <$> pages) ++ inr err :: extra) = Some (inr err).
Proof.
  intros Hpages Hlast. destruct Hpages as [|page rest Hne Hrest].
  - split; [|done]. simpl. by apply zones_loop_end.
  - split.
    + exact (zones_loop_pages p rest Hrest page [] last extra Hne Hlast).
    + exact (zones_loop_error p rest Hrest page [] err extra Hne).
Qed.

(** X10: whatever the client replies, every zone that [zones] returns has a
    name, and that name ends in the domain filter; [findZone] therefore
    completes on the zones returned, for every name. *)
Theorem X10_zones_are_named_and_in_domain
    (p : AzureProvider.t) (replies : list (ZoneListResult.t + go_error))
    (zs : list Zone.t) :
  zones p replies = Some (inl zs) →
  Forall (λ z, ∃ zoneName,
             Zone.Name z = Some zoneName
             ∧ HasSuffix zoneName (AzureProvider.domainFilter p) = true) zs
  ∧ ∀ name, is_Some (findZone zs name).
Proof.
  intros Hzones.
  assert (Hdom : Forall (λ z, zone_in_domain p z = true) zs).
  { destruct replies as [|[listResult|err] replies]; [done| |done].
    by apply (zones_loop_in_domain p replies listResult [] zs). }
  assert (Hnamed : Forall (λ z, ∃ zoneName,
                       Zone.Name z = Some zoneName
                       ∧ HasSuffix zoneName (AzureProvider.domainFilter p)
                         = true) zs).
  { eapply Forall_impl; [exact Hdom|]. intros z. unfold zone_in_domain.
    destruct (Zone.Name z) as [zoneName|]; [|done]. by exists zoneName. }
  split; [done|]. intros name.
  destruct (findZone_found zs name) as (result & -> & _); [|done].
  eapply Forall_impl; [exact Hnamed|]. by intros z (zoneName & -> & _).
Qed.

(** ** The Azure provider: [ApplyChanges] *)

Lemma bucket_values_bucket_append {A} (z : nat) (c : A)
    (m : gmap nat (list A)) :
  bucket_values (map_to_list (bucket_append z c m))
  ≡ₚ bucket_values (map_to_list m) ++ [c].
Proof.
  unfold bucket_values, bucket_append.
  destruct (m !! z) as [old|] eqn:Hz; simpl.
  - rewrite <- (insert_delete_eq m).
    rewrite map_to_list_insert by apply lookup_delete_eq.
    rewrite <- (map_to_list_delete m z old Hz).
    rewrite !bind_cons. simpl.
    rewrite <- !app_assoc. apply Permutation_app_head, Permutation_app_comm.
  - rewrite map_to_list_insert by done.
    rewrite bind_cons. simpl. apply Permutation_cons_append.
Qed.

Lemma bucket_values_grouped {A} (f : A → option nat) (l : list A)
    (m : gmap nat (list A)) :
  (∀ z, m !! z = extend None (filter (λ c, f c = Some z) l)) →
  bucket_values (map_to_list m) ≡ₚ filter (λ c, is_Some (f c)) l.
Proof.
  revert m. induction l as [|c l IH] using rev_ind; intros m Hm.
  - assert (m = ∅) as -> by (apply map_eq; intros z; by rewrite Hm, lookup_empty).
    by rewrite map_to_list_empty.
  - rewrite filter_app, filter_cons, filter_nil.
    destruct (f c) as [z0|] eqn:Hc.
    + set (m' := match filter (λ c, f c = Some z0) l with
                 | [] => delete z0 m
                 | old => <[z0 := old]> m
                 end).
      assert (Hm' : ∀ z, m' !! z = extend None (filter (λ c, f c = Some z) l)).
      { intros z. unfold m'. destruct (decide (z = z0)) as [->|Hne].
        - destruct (filter (λ c, f c = Some z0) l) eqn:Hf; simpl.
          + apply lookup_delete_eq.
          + by rewrite lookup_insert_eq.
        - assert (Hz : m !! z = extend None (filter (λ c, f c = Some z) l)).
          { rewrite Hm, filter_app, filter_cons, filter_nil.
            rewrite decide_False by congruence. by rewrite app_nil_r. }
          destruct (filter (λ c, f c = Some z0) l).
          + by rewrite lookup_delete_ne.
          + by rewrite lookup_insert_ne. }
      clearbody m'.
      assert (m = bucket_append z0 c m') as ->.
      { apply map_eq. intros z. rewrite lookup_bucket_append, Hm, Hm'.
        rewrite filter_app, filter_cons, filter_nil, extend_app.
        destruct (decide (z0 = z)) as [->|Hne].
        - by rewrite !decide_True.
        - by rewrite !decide_False by congruence. }
      rewrite bucket_values_bucket_append, (IH m' Hm').
      by rewrite decide_True.
    + rewrite decide_False by (by intros []).
      rewrite app_nil_r. apply IH. intros z.
      rewrite Hm, filter_app, filter_cons, filter_nil.
      rewrite decide_False by congruence. by rewrite app_nil_r.
Qed.

Section apply_facts.
Variable p : AzureProvider.t.
Variable zones : list Zone.t.
Hypothesis zones_named : Forall (λ z, is_Some (Zone.Name z)) zones.

Lemma zone_of_Some change z :
  zone_of zones change = Some z
  ↔ findZone zones (EndpointSet.DNSName change) = Some (Some z).
Proof.
  unfold zone_of.
  destruct (findZone zones (EndpointSet.DNSName change)) as [[z'|]|];
    simpl; split; congruence.
Qed.

Lemma zone_of_usable change z :
  zone_of zones change = Some z →
  ∃ zone zoneName name,
    zones !! z = Some zone
    ∧ Zone.Name zone = Some zoneName
    ∧ recordSetNameForZone zone change = Some name.
Proof.
  intros Hfind%zone_of_Some.
  destruct (findZone_found zones (EndpointSet.DNSName change) zones_named)
    as (result & Hres & Hspec).
  rewrite Hfind in Hres. injection Hres as <-.
  destruct Hspec as (_ & resultName & Hz & Hsuf & _).
  destruct (zones !! z) as [zone|] eqn:Hzone; [|done]. simpl in Hz.
  apply HasSuffix_length in Hsuf.
  exists zone, resultName. unfold recordSetNameForZone. rewrite Hz. simpl.
  rewrite bool_decide_eq_true_2 by done.
  case_bool_decide; eauto.
Qed.

Lemma deleteRecords_zone_calls z zone endpointSets :
  zones !! z = Some zone →
  Forall (λ c, zone_of zones c = Some z) endpointSets →
  deleteRecords_zone p zone endpointSets
  = Some (if AzureProvider.dryRun p then []
          else omap (delete_call_of p zones) endpointSets).
Proof.
  intros Hzone. induction 1 as [|c rest Hc _ IH].
  - by destruct (AzureProvider.dryRun p).
  - destruct (zone_of_usable c z Hc) as (zone' & zoneName & name & Hz' & Hn & Hr).
    assert (zone' = zone) as -> by congruence.
    cbn [deleteRecords_zone omap list_omap]. rewrite Hr, Hn, IH. simpl.
    unfold delete_call_of. rewrite Hc. simpl. rewrite Hzone. simpl.
    rewrite Hn. simpl. rewrite Hr. simpl.
    by destruct (AzureProvider.dryRun p).
Qed.

Lemma updateRecords_zone_calls z zone endpointSets :
  zones !! z = Some zone →
  Forall (λ c, zone_of zones c = Some z) endpointSets →
  updateRecords_zone p zone endpointSets
  = Some (if AzureProvider.dryRun p then []
          else omap (update_call_of p zones) endpointSets).
Proof.
  intros Hzone. induction 1 as [|c rest Hc _ IH].
  - by destruct (AzureProvider.dryRun p).
  - destruct (zone_of_usable c z Hc) as (zone' & zoneName & name & Hz' & Hn & Hr).
    assert (zone' = zone) as -> by congruence.
    cbn [updateRecords_zone omap list_omap]. rewrite Hr, Hn, IH. simpl.
    unfold update_call_of. rewrite Hc. simpl. rewrite Hzone. simpl.
    rewrite Hn. simpl. rewrite Hr. simpl.
    destruct (AzureProvider.dryRun p); [done|].
    by destruct (newRecordSet c).
Qed.

Lemma deleteRecords_calls order :
  well_bucketed zones order →
  deleteRecords p zones order
  = Some (if AzureProvider.dryRun p then []
          else omap (delete_call_of p zones) (bucket_values order)).
Proof.
  induction 1 as [|[z sets] rest [[zone Hzone] Hsets] _ IH].
  - by destruct (AzureProvider.dryRun p).
  - unfold bucket_values. rewrite bind_cons, omap_app.
    fold (bucket_values rest).
    cbn [deleteRecords]. simpl in Hzone, Hsets. rewrite Hzone. simpl.
    rewrite (deleteRecords_zone_calls z zone sets Hzone Hsets). simpl.
    rewrite IH. simpl.
    by destruct (AzureProvider.dryRun p).
Qed.

Lemma updateRecords_calls order :
  well_bucketed zones order →
  updateRecords p zones order
  = Some (if AzureProvider.dryRun p then []
          else omap (update_call_of p zones) (bucket_values order)).
Proof.
  induction 1 as [|[z sets] rest [[zone Hzone] Hsets] _ IH].
  - by destruct (AzureProvider.dryRun p).
  - unfold bucket_values. rewrite bind_cons, omap_app.
    fold (bucket_values rest).
    cbn [updateRecords]. simpl in Hzone, Hsets. rewrite Hzone. simpl.
    rewrite (updateRecords_zone_calls z zone sets Hzone Hsets). simpl.
    rewrite IH. simpl.
    by destruct (AzureProvider.dryRun p).
Qed.

Lemma visited_well_bucketed (m : gmap nat (list EndpointSet.t))
    (l : list EndpointSet.t) order :
  (∀ z, m !! z = extend None (filter (λ c, zone_of zones c = Some z) l)) →
  range_order m order →
  well_bucketed zones order.
Proof.
  intros Hm Hro. apply Forall_forall. intros [z sets] Hin.
  apply (range_order_elem m order) in Hin; [|done].
  rewrite Hm in Hin. simpl.
  destruct (filter (λ c, zone_of zones c = Some z) l) as [|c cs] eqn:Hf;
    [done|].
  injection Hin as <-.
  assert (Hall : Forall (λ c, zone_of zones c = Some z) (c :: cs)).
  { rewrite <- Hf. apply Forall_forall. by intros ? [? _]%list_elem_of_filter. }
  split; [|done].
  apply Forall_cons in Hall as [Hc _].
  destruct (zone_of_usable c z Hc) as (zone & ? & ? & -> & _). done.
Qed.

Lemma visited_calls (g : EndpointSet.t → option RecordsCall)
    (m : gmap nat (list EndpointSet.t)) (l : list EndpointSet.t) order :
  (∀ c, zone_of zones c = None → g c = None) →
  (∀ z, m !! z = extend None (filter (λ c, zone_of zones c = Some z) l)) →
  range_order m order →
  omap g (bucket_values order) ≡ₚ omap g l.
Proof.
  intros Hg Hm Hro. unfold bucket_values. rewrite Hro.
  fold (bucket_values (map_to_list m)).
  rewrite (bucket_values_grouped (zone_of zones) l m Hm).
  clear Hm Hro. induction l as [|c l IH]; [done|].
  rewrite filter_cons. simpl.
  destruct (zone_of zones c) as [z|] eqn:Hc.
  - rewrite decide_True by done. simpl. by destruct (g c); rewrite IH.
  - rewrite decide_False by (by intros []). by rewrite (Hg c Hc).
Qed.

Lemma mapChanges_buckets (changes : Changes.t) :
  ∃ deleted updated,
    mapChanges zones changes = Some (deleted, updated)
    ∧ (∀ z, deleted !! z
            = extend None
                (filter (λ c, zone_of zones c = Some z)
                        (Changes.Delete changes ++ Changes.UpdateOld changes)))
    ∧ (∀ z, updated !! z
            = extend None
                (filter (λ c, zone_of zones c = Some z)
                        (Changes.Create changes ++ Changes.UpdateNew changes))).
Proof.
  assert (Hfilter : ∀ z (l : list EndpointSet.t),
             filter (λ c, findZone zones (EndpointSet.DNSName c)
                          = Some (Some z)) l
             = filter (λ c, zone_of zones c = Some z) l).
  { intros z l. apply list_filter_iff. intros c. symmetry. apply zone_of_Some. }
  unfold mapChanges.
  destruct (mapChange_all_buckets zones (Changes.Delete changes) zones_named ∅)
    as (d1 & -> & Hd1).
  simpl.
  destruct (mapChange_all_buckets zones (Changes.UpdateOld changes)
              zones_named d1) as (d2 & -> & Hd2).
  simpl.
  destruct (mapChange_all_buckets zones (Changes.Create changes) zones_named ∅)
    as (u1 & -> & Hu1).
  simpl.
  destruct (mapChange_all_buckets zones (Changes.UpdateNew changes)
              zones_named u1) as (u2 & -> & Hu2).
  simpl. exists d2, u2. split_and!; [done|..]; intros z.
  - by rewrite Hd2, Hd1, lookup_empty, extend_app, filter_app, !Hfilter.
  - by rewrite Hu2, Hu1, lookup_empty, extend_app, filter_app, !Hfilter.
Qed.
End apply_facts.

(** X11: [ApplyChanges] issues no call and returns the error when listing
    the zones fails. Otherwise it returns nil after issuing its delete calls
    and then its update calls: none at all in a dry run, and else one
    [Delete] per set of [Delete] and [UpdateOld] whose name lies in a zone,
    and one [CreateOrUpdate] per set of [Create] and [UpdateNew] whose name
    lies in a zone and for which [newRecordSet] succeeds, each addressed to
    the zone found for the name, in some order. *)
Theorem X11_ApplyChanges_calls
    (p : AzureProvider.t) (replies : list (ZoneListResult.t + go_error))
    (visit : gmap nat (list EndpointSet.t) → list (nat * list EndpointSet.t))
    (changes : Changes.t) :
  (∀ m, range_order m (visit m)) →
  match zones p replies with
  | None => ApplyChanges p replies visit changes = None
  | Some (inr err) =>
      ApplyChanges p replies visit changes = Some ([], Some err)
  | Some (inl zs) =>
      ∃ deletes updates,
        ApplyChanges p replies visit changes = Some (deletes ++ updates, None)
        ∧ (AzureProvider.dryRun p = true → deletes = [] ∧ updates = [])
        ∧ (AzureProvider.dryRun p = false →
           deletes
           ≡ₚ omap (delete_call_of p zs)
                   (Changes.Delete changes ++ Changes.UpdateOld changes)
           ∧ updates
             ≡ₚ omap (update_call_of p zs)
                     (Changes.Create changes ++ Changes.UpdateNew changes))
  end.
Proof.
  intros Hvisit. unfold ApplyChanges.
  destruct (zones p replies) as [[zs|err]|] eqn:Hzones; [|done..]. simpl.
  assert (Hnamed : Forall (λ z, is_Some (Zone.Name z)) zs).
  { destruct replies as [|[listResult|err] replies]; [done| |done].
    pose proof (zones_loop_in_domain p replies listResult [] zs Hzones
                  (Forall_nil_2 _)) as Hdom.
    eapply Forall_impl; [exact Hdom|]. intros z. unfold zone_in_domain.
    by destruct (Zone.Name z). }
  destruct (mapChanges_buckets zs Hnamed changes)
    as (deleted & updated & -> & Hd & Hu).
  simpl.
  rewrite (deleteRecords_calls p zs Hnamed (visit deleted))
    by exact (visited_well_bucketed zs Hnamed deleted _ _ Hd (Hvisit deleted)).
  simpl.
  rewrite (updateRecords_calls p zs Hnamed (visit updated))
    by exact (visited_well_bucketed zs Hnamed updated _ _ Hu (Hvisit updated)).
  simpl. eexists _, _. split; [done|].
  split; intros ->; [done|]. split.
  - eapply visited_calls; [|exact Hd|done].
    intros c Hc. unfold delete_call_of. by rewrite Hc.
  - eapply visited_calls; [|exact Hu|done].
    intros c Hc. unfold update_call_of. by rewrite Hc.
Qed.

(** ** More on [NewPlan] and [Calculate] *)

(** X12: for every plan and every visiting order, [Create] holds exactly the
    keys that are desired and not current, [Delete] exactly the keys that
    are current and not desired, and the update lists only keys that are
    both; a [Create] or [UpdateNew] entry carries the desired bucket of its
    key, a [Delete] or [UpdateOld] entry the current bucket, and [Create]
    entries have nil labels. *)
Theorem X12_changes_by_key
    (plan : Plan.t) (ro co : list (RecordKey.t * list string)) :
  let changes := diff ro co plan in
  range_order (Plan.RecordTargets plan) ro →
  range_order (Plan.CurrentTargets plan) co →
  (∀ key, key ∈ key_of_set <$> Changes.Create changes
          ↔ is_Some (Plan.RecordTargets plan !! key)
            ∧ Plan.CurrentTargets plan !! key = None)
  ∧ (∀ key, key ∈ key_of_set <$> Changes.Delete changes
            ↔ is_Some (Plan.CurrentTargets plan !! key)
              ∧ Plan.RecordTargets plan !! key = None)
  ∧ (∀ key, key ∈ key_of_set <$> Changes.UpdateOld changes →
            is_Some (Plan.RecordTargets plan !! key)
            ∧ is_Some (Plan.CurrentTargets plan !! key))
  ∧ (∀ s, s ∈ Changes.Create changes →
          Plan.RecordTargets plan !! key_of_set s = Some (EndpointSet.Targets s)
          ∧ EndpointSet.Labels s = None)
  ∧ (∀ s, s ∈ Changes.Delete changes →
          Plan.CurrentTargets plan !! key_of_set s
          = Some (EndpointSet.Targets s))
  ∧ (∀ s, s ∈ Changes.UpdateOld changes →
          Plan.CurrentTargets plan !! key_of_set s
          = Some (EndpointSet.Targets s))
  ∧ (∀ s, s ∈ Changes.UpdateNew changes →
          Plan.RecordTargets plan !! key_of_set s
          = Some (EndpointSet.Targets s)).
Proof.
  intros changes Hro Hco. unfold changes. rewrite diff_lists. simpl.
  split_and!.
  - intros key. split.
    + intros [Hin Hnone]%create_key. split; [|done].
      by apply (range_order_key (Plan.RecordTargets plan) ro).
    + intros [[desired Hdes] Hnone].
      apply list_elem_of_fmap. exists (set_of key desired None).
      split; [by rewrite key_of_set_of|].
      apply list_elem_of_omap. exists (key, desired). split.
      * by apply (range_order_elem (Plan.RecordTargets plan) ro).
      * unfold create_of. simpl. by rewrite Hnone.
  - intros key. split.
    + intros [Hin Hnone]%delete_key. split; [|done].
      by apply (range_order_key (Plan.CurrentTargets plan) co).
    + intros [[current Hcur] Hnone].
      apply list_elem_of_fmap.
      exists (set_of key current (index_labels (Plan.Labels plan) key)).
      split; [by rewrite key_of_set_of|].
      apply list_elem_of_omap. exists (key, current). split.
      * by apply (range_order_elem (Plan.CurrentTargets plan) co).
      * unfold delete_of. simpl. by rewrite Hnone.
  - intros key (desired & current & Hin & Hcur & _)%update_key.
    apply (range_order_elem (Plan.RecordTargets plan) ro) in Hin; [|done].
    by rewrite Hin, Hcur.
  - intros s ([key desired] & Hin & [_ ->]%create_of_Some)%list_elem_of_omap.
    simpl. rewrite key_of_set_of. split; [|done].
    by apply (range_order_elem (Plan.RecordTargets plan) ro).
  - intros s ([key current] & Hin & [_ ->]%delete_of_Some)%list_elem_of_omap.
    simpl. rewrite key_of_set_of.
    by apply (range_order_elem (Plan.CurrentTargets plan) co).
  - intros s ([old new] & -> & Hin)%list_elem_of_fmap.
    apply update_entry in Hin as ([key desired] & current & _ & Hcur & _ & -> & _).
    simpl in *. by rewrite key_of_set_of.
  - intros s ([old new] & -> & Hin)%list_elem_of_fmap.
    apply update_entry in Hin as ([key desired] & current & Hin & _ & _ & _ & ->).
    simpl. rewrite key_of_set_of.
    by apply (range_order_elem (Plan.RecordTargets plan) ro).
Qed.

Lemma extend_None_Some {V} (vs l : list V) :
  extend None vs = Some l → l = vs ∧ vs ≠ [].
Proof. destruct vs; [done|]. by intros [= <-]. Qed.

Section more_plan_facts.
Context `{EndpointConsts}.

(** X13: in a plan built by [NewPlan] no bucket is empty, [Labels] has
    exactly the keys of [CurrentTargets], and the alias index maps a name to
    the alias endpoints of the desired list that bear it, in list order. *)
Theorem X13_NewPlan_buckets
    (current desired : list Endpoint.t) (policy : Policy) :
  let plan := NewPlan current desired policy in
  (∀ key targets, Plan.RecordTargets plan !! key = Some targets → targets ≠ [])
  ∧ (∀ key targets, Plan.CurrentTargets plan !! key = Some targets →
                    targets ≠ [])
  ∧ dom (Plan.Labels plan) = dom (Plan.CurrentTargets plan)
  ∧ (∀ name aliases,
        Plan.Aliases plan !! name = Some aliases →
        aliases ≠ []
        ∧ aliases = filter (λ ep, Endpoint.AliasTarget ep = true
                                  ∧ Endpoint.DNSName ep = name) desired).
Proof.
  intros plan. split_and!.
  - intros key targets. unfold plan. rewrite NewPlan_RecordTargets.
    by intros [-> ?]%extend_None_Some.
  - intros key targets. unfold plan. simpl.
    rewrite lookup_aggregate_current_targets. simpl. rewrite lookup_empty.
    intros [-> Hne]%extend_None_Some. done.
  - apply set_eq. intros key. rewrite !elem_of_dom. unfold plan. simpl.
    rewrite lookup_aggregate_current_labels,
      lookup_aggregate_current_targets.
    simpl. rewrite !lookup_empty.
    destruct (filter (λ ep, key_of_endpoint ep = key) current)
      as [|ep same] eqn:Hsame; simpl.
    + split; by intros [].
    + split; intros _; [done|].
      destruct (last (ep :: same)) eqn:Hlast; [done|].
      by apply last_None in Hlast.
  - intros name aliases. unfold plan. rewrite NewPlan_Aliases.
    by intros [-> ?]%extend_None_Some.
Qed.

(** X14: [NewPlan] depends on the desired list only through its alias
    endpoints, in their order, and its other endpoints, in their order: how
    the two kinds are interleaved does not matter, and an alias endpoint may
    come after the records that refer to it. *)
Theorem X14_NewPlan_ignores_interleaving
    (current desired1 desired2 : list Endpoint.t) (policy : Policy) :
  filter (λ ep, Endpoint.AliasTarget ep = true) desired1
  = filter (λ ep, Endpoint.AliasTarget ep = true) desired2 →
  filter (λ ep, Endpoint.AliasTarget ep = false) desired1
  = filter (λ ep, Endpoint.AliasTarget ep = false) desired2 →
  NewPlan current desired1 policy = NewPlan current desired2 policy.
Proof.
  intros Halias Hregular.
  assert (Hal : Plan.Aliases (NewPlan current desired1 policy)
                = Plan.Aliases (NewPlan current desired2 policy)).
  { apply map_eq. intros name. rewrite !NewPlan_Aliases.
    assert (Hsplit : ∀ desired : list Endpoint.t,
               filter (λ ep, Endpoint.AliasTarget ep = true
                             ∧ Endpoint.DNSName ep = name) desired
               = filter (λ ep, Endpoint.DNSName ep = name)
                   (filter (λ ep, Endpoint.AliasTarget ep = true) desired)).
    { intros desired. rewrite list_filter_filter.
      apply list_filter_iff. intros ep. tauto. }
    by rewrite !Hsplit, Halias. }
  unfold NewPlan in *. simpl in *. f_equal; [done|].
  rewrite Hal. unfold collect_aliases.
  by rewrite !collect_alias_records, Hregular.
Qed.

(** X15: every target of a desired bucket of [NewPlan] comes from a desired
    endpoint that is not an alias target and bears the bucket's DNS name:
    either that endpoint has the bucket's record type and this target, or it
    is an [InternalALIAS] record and the target is that of an alias endpoint
    of the bucket's record type registered under the record's target. *)
Theorem X15_desired_targets_provenance
    (current desired : list Endpoint.t) (policy : Policy)
    (key : RecordKey.t) (targets : list string) (target : string) :
  Plan.RecordTargets (NewPlan current desired policy) !! key = Some targets →
  target ∈ targets →
  ∃ ep,
    ep ∈ desired
    ∧ Endpoint.AliasTarget ep = false
    ∧ Endpoint.DNSName ep = RecordKey.DNSName key
    ∧ ((Endpoint.RecordType ep ≠ RecordTypeInternalALIAS
        ∧ Endpoint.RecordType ep = RecordKey.RecordType key
        ∧ Endpoint.Target ep = target)
       ∨ (Endpoint.RecordType ep = RecordTypeInternalALIAS
          ∧ ∃ alias,
              alias ∈ desired
              ∧ Endpoint.AliasTarget alias = true
              ∧ Endpoint.DNSName alias = Endpoint.Target ep
              ∧ Endpoint.RecordType alias = RecordKey.RecordType key
              ∧ Endpoint.Target alias = target)).
Proof.
  rewrite NewPlan_RecordTargets. intros [-> _]%extend_None_Some.
  intros (ep & Hc & [Hreg Hin]%list_elem_of_filter)%list_elem_of_bind.
  exists ep. unfold contribution in Hc.
  case_decide as Hty.
  - apply list_elem_of_fmap in Hc as (alias & -> & [Hkey Ha]%list_elem_of_filter).
    split_and!; [done..|by rewrite <- Hkey|].
    right. split; [done|]. exists alias.
    destruct (Plan.Aliases (NewPlan current desired policy)
                !! Endpoint.Target ep) as [aliases|] eqn:Hal;
      [|by apply not_elem_of_nil in Ha].
    rewrite NewPlan_Aliases in Hal.
    apply extend_None_Some in Hal as [-> _]. simpl in Ha.
    apply list_elem_of_filter in Ha as [[Hat Hname] Hdes].
    split_and!; [done..|by rewrite <- Hkey|done].
  - case_decide as Hkey; [|by apply not_elem_of_nil in Hc].
    apply list_elem_of_singleton in Hc as ->.
    split_and!; [done..|by rewrite <- Hkey|].
    left. by rewrite <- Hkey.
Qed.

(** X16: the plan that [Calculate] returns has lost the labels: a
    [Calculate] on it gives entries with nil labels only, so the ownership
    filter drops every one of them, whoever the owner is. *)
Theorem X16_recalculated_changes_have_no_owner
    (plan : Plan.t) (ro co ro' co' : list (RecordKey.t * list string))
    (ownerID : string) :
  let changes := diff ro' co' (Calculate ro co plan) in
  Forall (λ s, EndpointSet.Labels s = None)
         (Changes.Create changes ++ Changes.UpdateOld changes
          ++ Changes.UpdateNew changes ++ Changes.Delete changes)
  ∧ filterOwnedRecords ownerID (Changes.UpdateOld changes) = []
  ∧ filterOwnedRecords ownerID (Changes.Delete changes) = [].
Proof.
  intros changes.
  assert (Hall : Forall (λ s, EndpointSet.Labels s = None)
                   (Changes.Create changes ++ Changes.UpdateOld changes
                    ++ Changes.UpdateNew changes ++ Changes.Delete changes)).
  { unfold changes. rewrite diff_lists. simpl.
    rewrite !Forall_app. split_and!; apply Forall_forall.
    - by intros s (e & _ & [_ ->]%create_of_Some)%list_elem_of_omap.
    - intros s ([old new] & -> & Hin)%list_elem_of_fmap.
      by apply update_entry in Hin as (e & c & _ & _ & _ & -> & _).
    - intros s ([old new] & -> & Hin)%list_elem_of_fmap.
      by apply update_entry in Hin as (e & c & _ & _ & _ & _ & ->).
    - by intros s (e & _ & [_ ->]%delete_of_Some)%list_elem_of_omap. }
  split; [done|].
  assert (Hdrop : ∀ l, Forall (λ s, EndpointSet.Labels s = None) l →
                       filterOwnedRecords ownerID l = []).
  { intros l Hl. rewrite filterOwnedRecords_label_filter.
    induction Hl as [|s l Hs _ IH]; [done|].
    rewrite filter_cons, Hs. by simpl. }
  rewrite !Forall_app in Hall. destruct Hall as (_ & Ho & _ & Hd).
  by rewrite !Hdrop.
Qed.

(** X17: on the changes computed for [NewPlan current desired], the
    ownership filter drops every [Create] entry, and keeps of [Delete]
    exactly the entries of the keys whose last current endpoint carries
    [ownerID] under the owner label. *)
Theorem X17_owned_deletes
    (current desired : list Endpoint.t) (policy : Policy)
    (ro co : list (RecordKey.t * list string)) (ownerID : string) :
  let plan := NewPlan current desired policy in
  let changes := diff ro co plan in
  range_order (Plan.RecordTargets plan) ro →
  range_order (Plan.CurrentTargets plan) co →
  filterOwnedRecords ownerID (Changes.Create changes) = []
  ∧ ∀ s, s ∈ filterOwnedRecords ownerID (Changes.Delete changes)
         ↔ ∃ key targets ep,
             s = set_of key targets (Endpoint.Labels ep)
             ∧ Plan.CurrentTargets plan !! key = Some targets
             ∧ Plan.RecordTargets plan !! key = None
             ∧ last (filter (λ e, key_of_endpoint e = key) current) = Some ep
             ∧ label_lookup (Endpoint.Labels ep) OwnerLabelKey = Some ownerID.
Proof.
  intros plan changes Hro Hco. unfold changes. rewrite diff_lists. simpl.
  assert (Hlabels : ∀ key targets,
             Plan.CurrentTargets plan !! key = Some targets →
             ∃ ep, last (filter (λ e, key_of_endpoint e = key) current) = Some ep
                   ∧ index_labels (Plan.Labels plan) key = Endpoint.Labels ep).
  { intros key targets. unfold plan, index_labels. simpl.
    rewrite lookup_aggregate_current_targets, lookup_aggregate_current_labels.
    simpl. rewrite !lookup_empty.
    intros [_ Hne]%extend_None_Some.
    destruct (last _) as [ep|] eqn:Hlast; [by exists ep|].
    apply last_None in Hlast. by rewrite Hlast in Hne. }
  split.
  - rewrite filterOwnedRecords_label_filter. clear Hro.
    induction ro as [|e ro' IH]; [done|]. simpl.
    destruct (create_of plan e) as [s|] eqn:Hs; [|done].
    apply create_of_Some in Hs as [_ ->].
    rewrite filter_cons. by simpl.
  - intros s. rewrite elem_of_filterOwnedRecords, list_elem_of_omap. split.
    + intros [([key targets] & Hin & [Hnone ->]%delete_of_Some) Howner].
      simpl in *.
      apply (range_order_elem (Plan.CurrentTargets plan) co) in Hin; [|done].
      destruct (Hlabels key targets Hin) as (ep & Hlast & Hl).
      exists key, targets, ep. rewrite Hl in *. done.
    + intros (key & targets & ep & -> & Hcur & Hnone & Hlast & Howner).
      destruct (Hlabels key targets Hcur) as (ep' & Hlast' & Hl).
      assert (ep' = ep) as -> by congruence.
      split; [|done]. exists (key, targets). split.
      * by apply (range_order_elem (Plan.CurrentTargets plan) co).
      * rewrite <- Hl. unfold delete_of. simpl. by rewrite Hnone.
Qed.

(** X18: filtering twice keeps what both owners own, that is the sets of
    [ownerID1] when the two owners are the same and nothing otherwise; and
    the filter distributes over the concatenation of lists. *)
Theorem X18_filterOwnedRecords_composes
    (ownerID1 ownerID2 : string) (l1 l2 : list EndpointSet.t) :
  filterOwnedRecords ownerID1 (filterOwnedRecords ownerID2 l1)
  = (if decide (ownerID1 = ownerID2) then filterOwnedRecords ownerID1 l1
     else [])
  ∧ filterOwnedRecords ownerID1 (l1 ++ l2)
    = filterOwnedRecords ownerID1 l1 ++ filterOwnedRecords ownerID1 l2.
Proof.
  rewrite !filterOwnedRecords_label_filter. split; [|apply filter_app].
  induction l1 as [|s l1 IH]; [by case_decide|].
  rewrite !filter_cons.
  destruct (decide (label_lookup (EndpointSet.Labels s) OwnerLabelKey
                    = Some ownerID2)) as [H2|H2].
  - rewrite filter_cons, IH.
    destruct (decide (ownerID1 = ownerID2)) as [->|Hne].
    + by rewrite decide_True.
    + by rewrite decide_False by congruence.
  - rewrite IH.
    destruct (decide (ownerID1 = ownerID2)) as [->|Hne]; [|done].
    by rewrite decide_False.
Qed.
End more_plan_facts.

(** ** Package [source] *)

Lemma str_app_inv_r (a b c : string) : a +:+ c = b +:+ c → a = b.
Proof.
  intros Heq.
  assert (Hlen : String.length a = String.length b).
  { apply (f_equal String.length) in Heq. rewrite !str_length_app in Heq. lia. }
  rewrite <- (str_take_app a c), <- (str_take_app b c), Heq. by rewrite Hlen.
Qed.

Lemma str_app_inv_l (a b c : string) : a +:+ b = a +:+ c → b = c.
Proof.
  intros Heq. by rewrite <- (str_drop_app a b), <- (str_drop_app a c), Heq.
Qed.

(** X19: for one role type, [aliasForNodeName] and [aliasForNodesInRole] give
    different aliases to different node names and to different roles. *)
Theorem X19_alias_names_are_injective (a b roleType : string) :
  (aliasForNodeName a roleType = aliasForNodeName b roleType → a = b)
  ∧ (aliasForNodesInRole a roleType = aliasForNodesInRole b roleType → a = b).
Proof.
  unfold aliasForNodeName, aliasForNodesInRole.
  split; intros Heq%str_app_inv_l; by apply str_app_inv_r in Heq.
Qed.

Lemma getNodeRole_fold (order : list (string * string)) (role : string) :
  (fold_left getNodeRole_step order role = role
   ∧ Forall (λ e, HasPrefix e.1 role_label_prefix = false) order)
  ∨ ∃ e, e ∈ order
         ∧ HasPrefix e.1 role_label_prefix = true
         ∧ fold_left getNodeRole_step order role
           = TrimPrefix e.1 role_label_prefix.
Proof.
  induction order as [|e order IH] using rev_ind.
  - left. by split.
  - rewrite fold_left_app. cbn [fold_left].
    set (r := fold_left getNodeRole_step order role) in *.
    unfold getNodeRole_step.
    change "node-role.kubernetes.io/"%string with role_label_prefix.
    cbv zeta.
    destruct (HasPrefix e.1 role_label_prefix) eqn:He.
    + right. exists e. split_and!; [|done..].
      apply elem_of_app. right. by left.
    + destruct IH as [[Hrole Hall]|(e' & Hin & He' & Hrole)].
      * left. split; [done|]. apply Forall_app. split; [done|].
        by apply Forall_singleton.
      * right. exists e'. split_and!; [|done..].
        apply elem_of_app. by left.
Qed.

(** X20: [getNodeRole] returns the value of the label [kubernetes.io/role]
    (the empty string when it is absent) when no label key starts with
    [node-role.kubernetes.io/]; when exactly one label key does, it returns
    what follows the prefix in that key, unless that is empty, in which case
    it falls back to the older label; in every case the result is either
    the fallback or a non-empty role named by such a key. *)
Theorem X20_getNodeRole
    (order : list (string * string)) (node : Node.t) :
  let older := default "" (Node.Labels node !! "kubernetes.io/role") in
  range_order (Node.Labels node) order →
  ((∀ k, is_Some (Node.Labels node !! k) →
         HasPrefix k role_label_prefix = false) →
   getNodeRole order node = older)
  ∧ (∀ r, is_Some (Node.Labels node !! (role_label_prefix +:+ r)) →
          (∀ k, is_Some (Node.Labels node !! k) →
                HasPrefix k role_label_prefix = true →
                k = role_label_prefix +:+ r) →
          getNodeRole order node = if bool_decide (r = "") then older else r)
  ∧ (getNodeRole order node = older
     ∨ ∃ r, r ≠ ""
            ∧ is_Some (Node.Labels node !! (role_label_prefix +:+ r))
            ∧ getNodeRole order node = r).
Proof.
  intros older Hro.
  assert (Hkey : ∀ e, e ∈ order → is_Some (Node.Labels node !! e.1)).
  { intros [k v] Hin. exists v.
    by apply (range_order_elem (Node.Labels node) order). }
  unfold getNodeRole. fold older.
  destruct (getNodeRole_fold order "")
    as [[-> Hall]|(e & Hin & He & ->)].
  - rewrite bool_decide_eq_true_2 by done. split_and!; [done| |by left].
    intros r [v Hr] _.
    apply (range_order_elem (Node.Labels node) order) in Hr; [|done].
    rewrite Forall_forall in Hall. specialize (Hall _ Hr). simpl in Hall.
    rewrite (proj2 (HasPrefix_true _ _)) in Hall by by exists r. done.
  - pose proof He as [r Hr]%HasPrefix_true.
    rewrite Hr, TrimPrefix_app.
    split_and!.
    + intros Hnone. rewrite (Hnone e.1) in He; [done|]. by apply Hkey.
    + intros r' _ Huniq.
      assert (r = r') as ->.
      { apply (str_app_inv_l role_label_prefix). rewrite <- Hr.
        apply Huniq; [by apply Hkey|done]. }
      by repeat case_bool_decide.
    + case_bool_decide as Hempty; [by left|]. right. exists r.
      split_and!; [done| |done]. rewrite <- Hr. by apply Hkey.
Qed.

Section source_facts.
Context `{EndpointConsts} `{EndpointCtors}.

Lemma dnsController_lb_fold_length internal external lbs acc :
  length (fold_left (dnsController_lb_step internal external) lbs acc)
  = length acc
    + (present internal + present external)
      * sum_list (lb_targets <$> lbs).
Proof.
  revert acc. induction lbs as [|lb lbs IH]; intros acc; [simpl; lia|].
  cbn [fold_left]. rewrite IH, fmap_cons.
  change (sum_list (lb_targets lb :: (lb_targets <$> lbs)))
    with (lb_targets lb + sum_list (lb_targets <$> lbs)).
  generalize (sum_list (lb_targets <$> lbs)). intros rest.
  unfold dnsController_lb_step, lb_targets, present.
  destruct internal, external; repeat case_bool_decide;
    rewrite ?length_app; simpl; lia.
Qed.

(** X21: the number of endpoints that
    [legacyEndpointsFromDnsControllerService] returns: for a load balancer
    service, one per annotation present (internal, external) and per
    non-empty IP or hostname of the load balancer; for a node port service,
    one when exactly one of the two annotations is present and none when
    both are; none for any other service type. *)
Theorem X21_dnsController_service_endpoint_count (svc : Service.t) :
  let annotations :=
    present (Service.Annotations svc !! dnsControllerInternalAnnotationKey)
    + present (Service.Annotations svc !! dnsControllerExternalAnnotationKey) in
  length (legacyEndpointsFromDnsControllerService svc)
  = if bool_decide (Service.Spec_Type svc = ServiceTypeLoadBalancer)
    then annotations
         * sum_list (lb_targets <$> Service.Status_LoadBalancer_Ingress svc)
    else if bool_decide (Service.Spec_Type svc = ServiceTypeNodePort)
    then (if bool_decide (annotations = 1) then 1 else 0)
    else 0.
Proof.
  intros annotations. unfold annotations, legacyEndpointsFromDnsControllerService.
  destruct (Service.Annotations svc !! dnsControllerInternalAnnotationKey)
    as [internal|];
    destruct (Service.Annotations svc !! dnsControllerExternalAnnotationKey)
      as [external|];
    repeat case_bool_decide; try done;
    by rewrite dnsController_lb_fold_length.
Qed.

(** X22: a service that carries none of the four legacy annotations yields
    no endpoint in any compatibility mode. *)
Theorem X22_services_without_legacy_annotation (svc : Service.t)
    (compatibility : string) :
  Service.Annotations svc !! mateAnnotationKey = None →
  Service.Annotations svc !! moleculeAnnotationKey = None →
  Service.Annotations svc !! dnsControllerInternalAnnotationKey = None →
  Service.Annotations svc !! dnsControllerExternalAnnotationKey = None →
  legacyEndpointsFromService svc compatibility = [].
Proof.
  intros Hmate Hmolecule Hinternal Hexternal.
  unfold legacyEndpointsFromService, legacyEndpointsFromMateService,
    legacyEndpointsFromMoleculeService, legacyEndpointsFromDnsControllerService.
  rewrite Hmate, Hmolecule, Hinternal, Hexternal.
  by repeat case_bool_decide.
Qed.

Lemma podSource_loop_not_host_network compatibility fqdntemplate pods :
  Forall (λ pod, Pod.Spec_HostNetwork pod = false) pods →
  ∀ endpoints,
    podSource_loop compatibility fqdntemplate pods endpoints = inl endpoints
    ∨ ∃ err, podSource_loop compatibility fqdntemplate pods endpoints = inr err.
Proof.
  induction 1 as [|pod pods Hpod _ IH]; intros endpoints; [by left|].
  cbn [podSource_loop].
  destruct (pod_of_other_controller pod); [apply IH|].
  assert (Hdirect : endpointsFromPod pod = []).
  { unfold endpointsFromPod. rewrite Hpod. by destruct (_ !! _). }
  assert (Hlegacy : legacyEndpointsFromPod pod compatibility = []).
  { unfold legacyEndpointsFromPod, legacyEndpointsFromDnsControllerPod.
    rewrite Hpod. case_bool_decide; [|done].
    by repeat destruct (_ !! _). }
  rewrite Hdirect, Hlegacy.
  destruct (bool_decide (length (@nil Endpoint.t) = 0 ∧ compatibility ≠ ""));
    destruct fqdntemplate as [tmpl|]; simpl; try apply IH.
  all: unfold pod_endpointsFromTemplate; rewrite Hpod;
    destruct (tmpl pod) as [hostname|err]; simpl; [apply IH|];
    right; by exists err.
Qed.

(** X23: a pod that is not on the host network yields no endpoint, neither
    from its hostname annotation nor from the legacy annotations nor from
    the template; [podSource.Endpoints] on pods that are all off the host
    network returns the empty list, or the error of the template. *)
Theorem X23_pods_off_host_network_are_not_published
    (compatibility : string)
    (fqdntemplate : option (Pod.t → string + go_error)) (pods : list Pod.t) :
  Forall (λ pod, Pod.Spec_HostNetwork pod = false) pods →
  Forall (λ pod, endpointsFromPod pod = []
                 ∧ legacyEndpointsFromPod pod compatibility = []
                 ∧ ∀ tmpl hostname,
                     tmpl pod = inl hostname →
                     pod_endpointsFromTemplate tmpl pod = inl []) pods
  ∧ (podSource_Endpoints compatibility fqdntemplate (inl pods) = inl []
     ∨ ∃ err,
         podSource_Endpoints compatibility fqdntemplate (inl pods) = inr err)
  ∧ podSource_Endpoints compatibility None (inl pods) = inl [].
Proof.
  intros Hpods. split_and!.
  - eapply Forall_impl; [exact Hpods|]. intros pod Hpod. split_and!.
    + unfold endpointsFromPod. rewrite Hpod. by destruct (_ !! _).
    + unfold legacyEndpointsFromPod, legacyEndpointsFromDnsControllerPod.
      rewrite Hpod. case_bool_decide; [|done]. by repeat destruct (_ !! _).
    + intros tmpl hostname Htmpl. unfold pod_endpointsFromTemplate.
      by rewrite Htmpl, Hpod.
  - by apply podSource_loop_not_host_network.
  - destruct (podSource_loop_not_host_network compatibility None pods Hpods [])
      as [Hnil|[err Herr]]; [done|].
    exfalso. simpl in Herr. clear Hpods. revert Herr. generalize (@nil Endpoint.t).
    induction pods as [|pod pods IH]; intros endpoints; [done|].
    cbn [podSource_loop]. destruct (pod_of_other_controller pod); [apply IH|].
    simpl. case_bool_decide; apply IH.
Qed.

(** X24: [podSource.Endpoints] gives the same result when the pods that
    carry the controller annotation of another controller are removed from
    the list: such pods contribute nothing, not even a template error. *)
Theorem X24_podSource_skips_other_controllers
    (compatibility : string)
    (fqdntemplate : option (Pod.t → string + go_error)) (pods : list Pod.t) :
  podSource_Endpoints compatibility fqdntemplate (inl pods)
  = podSource_Endpoints compatibility fqdntemplate
      (inl (List.filter (λ pod, negb (pod_of_other_controller pod)) pods)).
Proof.
  simpl. generalize (@nil Endpoint.t).
  induction pods as [|pod pods IH]; intros endpoints; [done|].
  cbn [podSource_loop List.filter].
  destruct (pod_of_other_controller pod) eqn:Hpod; simpl; [apply IH|].
  rewrite Hpod.
  destruct (match fqdntemplate with Some _ => _ | None => _ end)
    as [podEndpoints|err]; [|done].
  case_bool_decide; apply IH.
Qed.
End source_facts.

(** ** The further theorems at concrete inputs *)

Lemma X1_witness :
  Forall (λ z, is_Some (Zone.Name z)) demo_zones
  ∧ findZone demo_zones "www.sub.example.com" = Some (Some 1)
  ∧ findZone demo_zones "www.nope.com" = Some None.
Proof.
  assert (Hnamed : Forall (λ z, is_Some (Zone.Name z)) demo_zones)
    by (repeat constructor; by eexists).
  split; [exact Hnamed|]. split.
  - destruct (X1_findZone_first_longest_suffix demo_zones
                "www.sub.example.com" Hnamed) as (result & Hfind & _).
    rewrite Hfind. vm_compute in Hfind. by injection Hfind as <-.
  - by vm_compute.
Defined.

Lemma X3_witness :
  let endpointSet := EndpointSet.mk "www.example.com" "A" ["1.2.3.4"] None in
  ("www" : string) ≠ ""
  ∧ recordSetNameForZone (Zone.mk (Some "example.com")) endpointSet
    = Some "www".
Proof.
  intros endpointSet.
  assert (Hne : ("www" : string) ≠ "") by done.
  split; [exact Hne|].
  exact (X3_recordSetName_of_formatted_name "www" "example.com" endpointSet
           Hne eq_refl).
Defined.

Lemma X4_witness :
  let endpointSet := EndpointSet.mk "example.com" "TXT" ["tag"] None in
  ∃ recordName,
    recordSetNameForZone (Zone.mk (Some "example.com")) endpointSet
    = Some recordName
    ∧ formatAzureDNSName recordName "example.com" = "example.com".
Proof.
  intros endpointSet.
  exact (X4_formatted_name_of_recordSetName "example.com" endpointSet
           (or_introl eq_refl)).
Defined.

Lemma X7_witness :
  let endpointSet :=
    EndpointSet.mk "www.example.com" "A" ["1.2.3.4"; "5.6.7.8"] None in
  ∃ recordSet,
    newRecordSet endpointSet = inl recordSet
    ∧ extractAzureTarget recordSet = "1.2.3.4".
Proof.
  intros endpointSet. eexists. split; [reflexivity|].
  exact (X7_extractAzureTarget_of_newRecordSet endpointSet _ eq_refl).
Defined.

Lemma X8_witness :
  ∃ deleted updated,
    mapChanges demo_zones demo_changes = Some (deleted, updated)
    ∧ deleted !! 0
      = Some [EndpointSet.mk "example.com" "TXT" ["tag"] None]
    ∧ deleted !! 1
      = Some [EndpointSet.mk "www.sub.example.com" "CNAME"
                             ["old.example.com"] None]
    ∧ updated !! 2 = None.
Proof.
  assert (Hnamed : Forall (λ z, is_Some (Zone.Name z)) demo_zones)
    by (repeat constructor; by eexists).
  destruct (X8_mapChanges_groups_by_found_zone demo_zones demo_changes Hnamed)
    as (deleted & updated & Hmap & Hbuckets).
  exists deleted, updated. split; [exact Hmap|].
  split_and!.
  - rewrite (proj1 (Hbuckets 0)). by vm_compute.
  - rewrite (proj1 (Hbuckets 1)). by vm_compute.
  - rewrite (proj2 (Hbuckets 2)). by vm_compute.
Defined.

Lemma X9_witness :
  zones demo_provider demo_replies
  = Some (inl [Zone.mk (Some "example.com");
               Zone.mk (Some "sub.example.com")]).
Proof.
  assert (Hpages : Forall (λ page : list Zone.t, page ≠ [])
                     [[Zone.mk (Some "example.com"); Zone.mk None];
                      [Zone.mk (Some "other.com");
                       Zone.mk (Some "sub.example.com")]])
    by (by repeat constructor).
  pose proof (X9_zones_reads_every_page demo_provider _
                (ZoneListResult.mk None) "" [] Hpages (or_introl eq_refl))
    as [Hzones _].
  etrans; [exact Hzones|]. by vm_compute.
Defined.

Lemma X10_witness :
  is_Some (findZone [Zone.mk (Some "example.com");
                     Zone.mk (Some "sub.example.com")] "www.example.com").
Proof.
  assert (Hzones : zones demo_provider demo_replies
                   = Some (inl [Zone.mk (Some "example.com");
                                Zone.mk (Some "sub.example.com")]))
    by (by vm_compute).
  exact (proj2 (X10_zones_are_named_and_in_domain demo_provider demo_replies
                  _ Hzones) "www.example.com").
Defined.

Lemma X11_witness :
  (∀ m : gmap nat (list EndpointSet.t), range_order m (map_to_list m))
  ∧ ∃ deletes updates,
      ApplyChanges demo_provider demo_replies map_to_list demo_changes
      = Some (deletes ++ updates, None)
      ∧ deletes
        ≡ₚ [Delete "k8s" "example.com" "@" "TXT" "";
            Delete "k8s" "sub.example.com" "www" "CNAME" ""]
      ∧ updates
        ≡ₚ [CreateOrUpdate "k8s" "example.com" "new" "A"
              (RecordSet.mk None None
                 (Some (RecordSetProperties.mk (Some 300%Z)
                          (Some [ARecord.mk (Some "1.2.3.4")]) None None)))
              "" "";
            CreateOrUpdate "k8s" "sub.example.com" "www" "CNAME"
              (RecordSet.mk None None
                 (Some (RecordSetProperties.mk (Some 300%Z) None
                          (Some (CnameRecord.mk (Some "new.example.com")))
                          None)))
              "" ""].
Proof.
  assert (Hvisit : ∀ m : gmap nat (list EndpointSet.t),
             range_order m (map_to_list m))
    by (intros m; apply range_order_canon).
  split; [exact Hvisit|].
  pose proof (X11_ApplyChanges_calls demo_provider demo_replies map_to_list
                demo_changes Hvisit) as Hcalls.
  assert (Hzones : zones demo_provider demo_replies
                   = Some (inl [Zone.mk (Some "example.com");
                                Zone.mk (Some "sub.example.com")]))
    by (by vm_compute).
  rewrite Hzones in Hcalls.
  destruct Hcalls as (deletes & updates & Happly & _ & Hwet).
  destruct (Hwet eq_refl) as [Hd Hu].
  exists deletes, updates. split; [exact Happly|]. split.
  - etrans; [exact Hd|]. vm_compute. reflexivity.
  - etrans; [exact Hu|]. vm_compute. reflexivity.
Defined.

Lemma X12_witness :
  let plan := demo_plan
                [Endpoint.mk "old.com" "9.9.9.9" "A" false (owner_is "me");
                 Endpoint.mk "x.com" "1.2.3.4" "A" false (owner_is "me")]
                [Endpoint.mk "x.com" "5.6.7.8" "A" false None;
                 Endpoint.mk "new.com" "7.7.7.7" "A" false None] in
  let ro := map_to_list (Plan.RecordTargets plan) in
  let co := map_to_list (Plan.CurrentTargets plan) in
  (RecordKey.mk "A" "new.com" ∈ key_of_set <$> Changes.Create (diff ro co plan))
  ∧ (RecordKey.mk "A" "old.com"
     ∈ key_of_set <$> Changes.Delete (diff ro co plan)).
Proof.
  intros plan ro co.
  destruct (X12_changes_by_key plan ro co
              (range_order_canon _) (range_order_canon _))
    as (Hcreate & Hdelete & _).
  split.
  - apply Hcreate.
    split; [eexists; vm_compute; reflexivity|vm_compute; reflexivity].
  - apply Hdelete.
    split; [eexists; vm_compute; reflexivity|vm_compute; reflexivity].
Defined.

Lemma X14_witness :
  let alias := Endpoint.mk "lb" "1.2.3.4" "A" true None in
  let record := Endpoint.mk "app.example.com" "lb" "InternalALIAS" false None in
  @NewPlan demo_consts [] [record; alias] sync_policy
  = @NewPlan demo_consts [] [alias; record] sync_policy.
Proof.
  intros alias record.
  exact (@X14_NewPlan_ignores_interleaving demo_consts [] [record; alias]
           [alias; record] sync_policy eq_refl eq_refl).
Defined.

Lemma X15_witness :
  let alias := Endpoint.mk "lb" "1.2.3.4" "A" true None in
  let record := Endpoint.mk "app.example.com" "lb" "InternalALIAS" false None in
  let key := RecordKey.mk "A" "app.example.com" in
  Plan.RecordTargets (@NewPlan demo_consts [] [record; alias] sync_policy)
    !! key = Some ["1.2.3.4"]
  ∧ ∃ ep, ep ∈ [record; alias]
          ∧ Endpoint.AliasTarget ep = false
          ∧ Endpoint.DNSName ep = "app.example.com".
Proof.
  intros alias record key.
  assert (Hbucket : Plan.RecordTargets
                      (@NewPlan demo_consts [] [record; alias] sync_policy)
                      !! key = Some ["1.2.3.4"])
    by (by vm_compute).
  split; [exact Hbucket|].
  destruct (@X15_desired_targets_provenance demo_consts [] [record; alias]
              sync_policy key ["1.2.3.4"] "1.2.3.4" Hbucket
              (list_elem_of_here _ _))
    as (ep & Hin & Hreg & Hname & _).
  by exists ep.
Defined.

Lemma X17_witness :
  let plan := demo_plan
                [Endpoint.mk "mine.com" "1.1.1.1" "A" false (owner_is "me");
                 Endpoint.mk "theirs.com" "2.2.2.2" "A" false (owner_is "you")]
                [] in
  let ro := map_to_list (Plan.RecordTargets plan) in
  let co := map_to_list (Plan.CurrentTargets plan) in
  EndpointSet.mk "mine.com" "A" ["1.1.1.1"] (owner_is "me")
  ∈ @filterOwnedRecords demo_consts "me" (Changes.Delete (diff ro co plan)).
Proof.
  intros plan ro co.
  apply (proj2 (@X17_owned_deletes demo_consts _ _ sync_policy ro co "me"
                  (range_order_canon _) (range_order_canon _))).
  exists (RecordKey.mk "A" "mine.com"), ["1.1.1.1"],
    (Endpoint.mk "mine.com" "1.1.1.1" "A" false (owner_is "me")).
  split_and!; by vm_compute.
Defined.

Lemma X20_witness :
  let node := Node.mk "n1" {[ "node-role.kubernetes.io/master" := "";
                              "kubernetes.io/role" := "node" ]} in
  getNodeRole (map_to_list (Node.Labels node)) node = "master".
Proof.
  intros node.
  pose proof (range_order_canon (Node.Labels node)) as Hro.
  pose proof (X20_getNodeRole (map_to_list (Node.Labels node)) node Hro) as HX.
  destruct HX as (_ & Hone & _).
  assert (Hlist : map_to_list (Node.Labels node)
                  = [("kubernetes.io/role", "node");
                     ("node-role.kubernetes.io/master", "")]).
  { vm_compute. reflexivity. }
  assert (Hsome : is_Some (Node.Labels node
                             !! (role_label_prefix +:+ "master"))).
  { exists ""%string. vm_compute. reflexivity. }
  assert (Huniq : ∀ k, is_Some (Node.Labels node !! k) →
                       HasPrefix k role_label_prefix = true →
                       k = role_label_prefix +:+ "master").
  { intros k [v Hk] Hprefix.
    pose proof (proj2 (range_order_elem (Node.Labels node)
                         (map_to_list (Node.Labels node)) k v Hro) Hk) as Hin.
    rewrite Hlist in Hin. clear Hk.
    apply elem_of_cons in Hin as [Hin|Hin].
    { injection Hin as Hk1 Hk2. subst k. vm_compute in Hprefix. discriminate. }
    apply elem_of_cons in Hin as [Hin|Hin].
    { injection Hin as Hk1 Hk2. subst k. reflexivity. }
    destruct (not_elem_of_nil _ Hin). }
  etrans; [exact (Hone "master" Hsome Huniq)|].
  vm_compute. reflexivity.
Defined.

Lemma X22_witness :
  let svc := Service.mk {[ "unrelated" := "x" ]} ∅ "LoadBalancer"
               [LoadBalancerIngress.mk "1.2.3.4" ""] in
  @legacyEndpointsFromService demo_consts demo_ctors svc "mate" = [].
Proof.
  intros svc.
  exact (@X22_services_without_legacy_annotation demo_consts demo_ctors svc
           "mate" eq_refl eq_refl eq_refl eq_refl).
Defined.

Lemma X23_witness :
  let pod := Pod.mk {[ hostnameAnnotationKey := "app.example.com" ]}
               false "node-1" "10.0.0.1" in
  @podSource_Endpoints demo_consts demo_ctors "dnscontroller" None (inl [pod])
  = inl [].
Proof.
  intros pod.
  assert (Hoff : Forall (λ pod, Pod.Spec_HostNetwork pod = false) [pod])
    by (by repeat constructor).
  exact (proj2 (proj2
    (@X23_pods_off_host_network_are_not_published demo_consts demo_ctors
       "dnscontroller" None [pod] Hoff))).
Defined.
